(** * Sentry bundler plugin core: release injection, debug-id injection,
      recoverable errors and the release pipeline

    A shallow embedding of [packages/bundler-plugin-core/src/index.ts].

    JavaScript strings are sequences of UTF-16 code units, regular
    expressions are run by a backtracking matcher that follows the
    ECMAScript matcher semantics (continuations, greedy quantifiers, the
    empty-iteration check), and the [magic-string] editor is modelled by its
    chunk list. *)

From Stdlib Require Import String Ascii List NArith Arith Bool Lia Sorted.
Import ListNotations.

Set Implicit Arguments.

(* ================================================================== *)
(** ** JavaScript strings *)
(* ================================================================== *)

Module JSString.

(** A UTF-16 code unit. *)
Definition char := N.

Definition jsstring := list char.

(** Code units of a source literal written in ASCII. *)
Definition str (s : string) : jsstring :=
  List.map N_of_ascii (list_ascii_of_string s).

Definition NUL : char := 0%N.
Definition TAB : char := 9%N.
Definition LF : char := 10%N.
Definition VT : char := 11%N.
Definition FF : char := 12%N.
Definition CR : char := 13%N.
Definition SP : char := 32%N.
Definition DQ : char := 34%N.        (* the double quote *)
Definition SQ : char := 39%N.        (* the single quote *)
Definition STAR : char := 42%N.
Definition SLASH : char := 47%N.
Definition SEMI : char := 59%N.
Definition BACKSLASH : char := 92%N.
Definition LS : char := 8232%N.      (* U+2028 *)
Definition PS : char := 8233%N.      (* U+2029 *)

(** A double-quoted piece of a template literal. *)
Definition quoted (s : string) : jsstring := DQ :: str s ++ [DQ].

Fixpoint eqb (a b : jsstring) : bool :=
  match a, b with
  | [], [] => true
  | x :: a', y :: b' => N.eqb x y && eqb a' b'
  | _, _ => false
  end.

(** [s.endsWith(ending)] *)
Definition endsWith (s ending : jsstring) : bool :=
  (length ending <=? length s) &&
  eqb (skipn (length s - length ending) s) ending.

(** [s.substring(i, j)] for [i <= j]. *)
Definition substring (s : jsstring) (i j : nat) : jsstring :=
  firstn (j - i) (skipn i s).

(** [endings.some((ending) => s.endsWith(ending))] *)
Definition some_endsWith (endings : list jsstring) (s : jsstring) : bool :=
  existsb (fun ending => endsWith s ending) endings.

(** [s] ends with [ending]: some text followed by [ending]. *)
Definition ends_with (s ending : jsstring) : Prop :=
  exists pre, s = pre ++ ending.

(** [s] contains [sub] somewhere. *)
Definition includes (s sub : jsstring) : Prop :=
  exists pre post, s = pre ++ sub ++ post.

End JSString.

Import JSString.

(* ================================================================== *)
(** ** Regular expressions (the fragment the two patterns use) *)
(* ================================================================== *)

Module RegExp.

Inductive charclass :=
| Lit (c : char)                (* a literal character          *)
| Dot                           (* [.] without the s flag       *)
| Space                         (* [\s]                         *)
| OneOf (l : list char)         (* [[...]]                      *)
| NoneOf (l : list char).       (* [[^...]]                     *)

Definition is_line_terminator (c : char) : bool :=
  N.eqb c LF || N.eqb c CR || N.eqb c LS || N.eqb c PS.

(** WhiteSpace and LineTerminator code points of ECMAScript. *)
Definition is_space (c : char) : bool :=
  N.eqb c TAB || N.eqb c VT || N.eqb c FF || N.eqb c SP ||
  N.eqb c 160 || N.eqb c 5760 ||
  (N.leb 8192 c && N.leb c 8202) ||
  N.eqb c 8239 || N.eqb c 8287 || N.eqb c 12288 || N.eqb c 65279 ||
  is_line_terminator c.

Definition in_class (cs : charclass) (c : char) : bool :=
  match cs with
  | Lit d => N.eqb c d
  | Dot => negb (is_line_terminator c)
  | Space => is_space c
  | OneOf l => existsb (N.eqb c) l
  | NoneOf l => negb (existsb (N.eqb c) l)
  end.

Inductive regex :=
| Empty
| Bol                           (* [^] without the m flag *)
| Class (cs : charclass)
| Seq (r1 r2 : regex)
| Alt (r1 r2 : regex)           (* [r1|r2]                *)
| Star (r : regex)              (* greedy [r*]            *)
| Opt (r : regex).              (* greedy [r?]            *)

Fixpoint lit (s : jsstring) : regex :=
  match s with
  | [] => Empty
  | c :: s' => Seq (Class (Lit c)) (lit s')
  end.

Fixpoint seq (rs : list regex) : regex :=
  match rs with
  | [] => Empty
  | [r] => r
  | r :: rs' => Seq r (seq rs')
  end.

Section Matcher.

Variable input : jsstring.

(** A continuation takes the end index reached so far and returns the
    end index of the whole match, or failure. *)
Definition continuation := nat -> option nat.

Definition orelse (a : option nat) (b : option nat) : option nat :=
  match a with
  | Some z => Some z
  | None => b
  end.

(** RepeatMatcher with min = 0 and max = infinity: try one more iteration
    of [body], refusing an iteration that consumed nothing, and fall back
    on the continuation.  Every iteration that is kept moves the end index
    forward, so [fuel], one more than the input that is left, is never
    used up (lemma [repeat_matcher_fuel]). *)
Fixpoint repeat_matcher (body : nat -> continuation -> option nat)
    (fuel : nat) (x : nat) (c : continuation) : option nat :=
  match fuel with
  | O => c x
  | S fuel' =>
      orelse
        (body x (fun y =>
           if y =? x then None else repeat_matcher body fuel' y c))
        (c x)
  end.

(** The matcher of a pattern: from the end index [x] reached so far, try
    to match [r] and then to satisfy the continuation [c], alternatives
    in their order. *)
Fixpoint m (r : regex) (x : nat) (c : continuation) : option nat :=
  match r with
  | Empty => c x
  | Bol => if x =? 0 then c x else None
  | Class cs =>
      match nth_error input x with
      | Some ch => if in_class cs ch then c (S x) else None
      | None => None
      end
  | Seq r1 r2 => m r1 x (fun y => m r2 y c)
  | Alt r1 r2 => orelse (m r1 x c) (m r2 x c)
  | Star r1 => repeat_matcher (m r1) (S (length input - x)) x c
  | Opt r1 =>
      orelse (m r1 x (fun y => if y =? x then None else c y)) (c x)
  end.

(** The loop of RegExpBuiltinExec for a pattern that is neither global
    nor sticky: try every start index from [i] on. *)
Fixpoint search (r : regex) (fuel : nat) (i : nat) : option (nat * nat) :=
  match m r i (fun e => Some e) with
  | Some e => Some (i, e)
  | None =>
      match fuel with
      | O => None
      | S fuel' => search r fuel' (S i)
      end
  end.

(** A body whose successes all come from its continuation, called at an
    index between the start and the end of the input. *)
Definition reaches (body : nat -> continuation -> option nat) : Prop :=
  forall x c z, x <= length input -> body x c = Some z ->
    exists y, x <= y <= length input /\ c y = Some z.

(** A body that looks at its continuation only between the start index
    and the end of the input. *)
Definition local (body : nat -> continuation -> option nat) : Prop :=
  forall x c c', x <= length input ->
    (forall y, x <= y <= length input -> c y = c' y) ->
    body x c = body x c'.

End Matcher.

(** The text [l] stands in [input] at index [x]. *)
Definition starts_at (input : jsstring) (x : nat) (l : jsstring) : bool :=
  JSString.eqb (firstn (length l) (skipn x input)) l.

(** The class [cs] cannot go on into [post]: [post] is empty or starts with
    a character outside the class. *)
Definition stops (cs : charclass) (post : jsstring) : Prop :=
  match post with
  | [] => True
  | ch :: _ => in_class cs ch = false
  end.

(** The array returned by [exec]: [index] and element [0]. *)
Record match_result := MatchResult {
  index : nat;
  matched : jsstring
}.

(** [s.match(r)] for a non-global [r]. *)
Definition match_ (s : jsstring) (r : regex) : option match_result :=
  match search s r (length s) 0 with
  | Some (i, e) => Some (MatchResult i (substring s i e))
  | None => None
  end.

End RegExp.

Import RegExp.

(* ================================================================== *)
(** ** Values, errors and the outcome of a call *)
(* ================================================================== *)

Module JSValue.

(** An instance of [Error]. *)
Record Error := mkError { message : jsstring }.

(** What [unknown] ranges over, as far as [instanceof Error] can tell. *)
Inductive value :=
| VUndefined
| VNull
| VBoolean (b : bool)
| VNumber (n : N)
| VString (s : jsstring)
| VError (e : Error).

(** A call returns or throws a value. *)
Inductive outcome (A : Type) :=
| Returns (a : A)
| Throws (e : value).

Arguments Returns {A} a.
Arguments Throws {A} e.

Definition bind {A B : Type} (o : outcome A) (f : A -> outcome B) : outcome B :=
  match o with
  | Returns a => f a
  | Throws e => Throws e
  end.

End JSValue.

Import JSValue.

Notation "x <- o ;; k" := (bind o (fun x => k))
  (at level 61, o at next level, right associativity).

(* ================================================================== *)
(** ** The magic-string editor, as far as the hooks drive it *)
(* ================================================================== *)

Module MagicString.

(** A piece [start, end_) of the original text with its current content. *)
Record Chunk := mkChunk {
  start : nat;
  end_ : nat;
  content : jsstring;
  edited : bool
}.

Record t := mkMagicString {
  original : jsstring;
  filename : option jsstring;
  intro : jsstring;
  outro : jsstring;
  chunks : list Chunk
}.

(** What [generateMap] returns, as far as the hooks set it: the [file]
    field and the mappings.  A mapping is written here as a pair of
    offsets, the place of a segment in the edited text and the place it
    comes from in the original; the library writes the same places as
    line and column and encodes them into [mappings]. *)
Record SourceMap := mkSourceMap {
  file : option jsstring;
  segments : list (nat * nat)
}.

(** [new MagicString(string, { filename })] *)
Definition new (string : jsstring) (fname : option jsstring) : t :=
  {| original := string;
     filename := fname;
     intro := [];
     outro := [];
     chunks := [ mkChunk 0 (length string) string false ] |}.

(** [ms.append(content)] *)
Definition append (ms : t) (c : jsstring) : t :=
  {| original := original ms; filename := filename ms;
     intro := intro ms; outro := outro ms ++ c; chunks := chunks ms |}.

(** [ms.prepend(content)] *)
Definition prepend (ms : t) (c : jsstring) : t :=
  {| original := original ms; filename := filename ms;
     intro := c ++ intro ms; outro := outro ms; chunks := chunks ms |}.

(** [_split(index)]: the chunk that contains [index] strictly inside is
    cut in two; a chunk that was edited to a non-empty content cannot be
    cut. *)
Fixpoint split (orig : jsstring) (index : nat) (cs : list Chunk)
  : outcome (list Chunk) :=
  match cs with
  | [] => Returns []
  | c :: rest =>
      if (start c <? index) && (index <? end_ c) then
        if edited c && negb (length (content c) =? 0) then
          Throws (VError (mkError
            (str "Cannot split a chunk that has already been edited")))
        else
          Returns
            (mkChunk (start c) index
               (if edited c then [] else substring orig (start c) index)
               (edited c)
             :: mkChunk index (end_ c)
                  (if edited c then [] else substring orig index (end_ c))
                  (edited c)
             :: rest)
      else
        rest' <- split orig index rest ;;
        Returns (c :: rest')
  end.

(** The chunks that lie inside [s, e) are edited: the one that starts at
    [s] receives the new content, the others become empty. *)
Fixpoint edit_range (s e : nat) (c' : jsstring) (cs : list Chunk)
  : list Chunk :=
  match cs with
  | [] => []
  | c :: rest =>
      (if (s <=? start c) && (end_ c <=? e) then
         mkChunk (start c) (end_ c)
           (if start c =? s then c' else []) true
       else c)
      :: edit_range s e c' rest
  end.

(** [ms.overwrite(start, end, content)], with the library's checks in
    their order (the messages are shortened). *)
Definition overwrite (ms : t) (s e : nat) (c : jsstring) : outcome t :=
  if length (original ms) <? e then
    Throws (VError (mkError (str "end is out of bounds")))
  else if s =? e then
    Throws (VError (mkError
      (str "Cannot overwrite a zero-length range")))
  else if e <? s then
    Throws (VError (mkError (str "Cannot overwrite across a split point")))
  else
    cs1 <- split (original ms) s (chunks ms) ;;
    cs2 <- split (original ms) e cs1 ;;
    Returns {| original := original ms; filename := filename ms;
               intro := intro ms; outro := outro ms;
               chunks := edit_range s e c cs2 |}.

(** [ms.replace(regex, replacer)] for a non-global [regex] and a function
    [replacer] of the matched text. *)
Definition replace (ms : t) (re : regex) (replacer : jsstring -> jsstring)
  : outcome t :=
  match match_ (original ms) re with
  | Some mr =>
      overwrite ms (index mr) (index mr + length (matched mr))
        (replacer (matched mr))
  | None => Returns ms
  end.

(** [ms.toString()] *)
Definition toString (ms : t) : jsstring :=
  intro ms ++ concat (List.map content (chunks ms)) ++ outro ms.

(** The segments of a chunk that was not edited, read from the original
    text of the chunk: one at the first character and one at the first
    character of every further line ([hires] is off).  [g] is the offset
    in the edited text and [o] the offset in the original. *)
Fixpoint unedited_segments (first : bool) (g o : nat) (text : jsstring)
  : list (nat * nat) :=
  match text with
  | [] => []
  | c :: text' =>
      (if first then [(g, o)] else [])
      ++ unedited_segments (N.eqb c LF) (S g) (S o) text'
  end.

(** The segments of the chunks from the offset [g] of the edited text on.
    An edited chunk gives one segment at its start when its content is not
    empty and none when it is empty. *)
Fixpoint segments_from (orig : jsstring) (g : nat) (cs : list Chunk)
  : list (nat * nat) :=
  match cs with
  | [] => []
  | c :: rest =>
      (if edited c then
         if length (content c) =? 0 then [] else [(g, start c)]
       else
         unedited_segments true g (start c)
           (substring orig (start c) (end_ c)))
      ++ segments_from orig (g + length (content c)) rest
  end.

(** [file.split(/[/\\]/).pop()]: what follows the last slash or
    backslash. *)
Fixpoint basename_from (acc : jsstring) (s : jsstring) : jsstring :=
  match s with
  | [] => acc
  | c :: s' =>
      if N.eqb c SLASH || N.eqb c BACKSLASH then basename_from [] s'
      else basename_from (acc ++ [c]) s'
  end.

Definition basename (s : jsstring) : jsstring := basename_from [] s.

(** [ms.generateMap({ file })]: the [file] field is the base name of a
    file name that is given and not empty, and null otherwise; the
    segments start after the editor's intro. *)
Definition generateMap (ms : t) (f : option jsstring) : SourceMap :=
  {| file := match f with
             | Some (c :: s) => Some (basename (c :: s))
             | _ => None
             end;
     segments := segments_from (original ms) (length (intro ms)) (chunks ms) |}.

End MagicString.

(* ================================================================== *)
(** ** index.ts *)
(* ================================================================== *)

(** What a [transform] or [renderChunk] hook returns when it edits. *)
Record HookResult := mkHookResult {
  code : jsstring;
  map : MagicString.SourceMap
}.

(** *** The recoverable-error sink *)

(** The plugin state the sink touches: the status of the execution
    transaction and the calls made to the user's handler, oldest first. *)
Record PluginState := mkPluginState {
  transactionStatus : option jsstring;
  handlerCalls : list Error
}.

(** [options.errorHandler]: user code, which returns or throws. *)
Definition ErrorHandler := Error -> outcome unit.

Definition setStatus (status : jsstring) (st : PluginState) : PluginState :=
  {| transactionStatus := Some status; handlerCalls := handlerCalls st |}.

Definition callHandler (h : ErrorHandler) (e : Error) (st : PluginState)
  : PluginState * outcome unit :=
  ({| transactionStatus := transactionStatus st;
      handlerCalls := handlerCalls st ++ [e] |}, h e).

(** The error the handler receives for [unknownError]. *)
Definition delivered (unknownError : value) : Error :=
  match unknownError with
  | VError e => e
  | _ => mkError (str "An unknown error occured")
  end.

Definition handleRecoverableError (errorHandler : option ErrorHandler)
    (unknownError : value) (st : PluginState) : PluginState * outcome unit :=
  let st := setStatus (str "internal_error") st in
  match errorHandler with
  | Some h =>
      match unknownError with
      | VError e => callHandler h e st
      | _ => callHandler h (mkError (str "An unknown error occured")) st
      end
  | None => (st, Throws unknownError)
  end.

(** *** The options the factory hands to the release management plugin *)

(** The fields of the normalized options and of the plugin argument that
    decide which steps run; loggers, clients and upload paths are left
    out. *)

Record Options (Commits Deploy : Type) := mkOptions {
  release : option jsstring;
  cleanArtifacts : bool;
  uploadSourceMaps : bool;
  finalize : bool;
  setCommits : option Commits;
  deploy : option Deploy;
  errorHandler : option ErrorHandler
}.

Record ReleaseManagementArgs (Commits Deploy : Type) := mkReleaseArgs {
  releaseName : jsstring;
  shouldCleanArtifacts : bool;
  shouldUploadSourceMaps : bool;
  shouldFinalizeRelease : bool;
  setCommitsOption : option Commits;
  deployOptions : option Deploy
}.

(** Truthiness of [string | undefined]. *)
Definition truthy (s : option jsstring) : bool :=
  match s with
  | Some (_ :: _) => true
  | _ => false
  end.

(** [options.release ?? determineReleaseName()] *)
Definition resolveReleaseName {C D : Type} (options : Options C D)
    (determineReleaseName : option jsstring) : option jsstring :=
  match release options with
  | Some r => Some r
  | None => determineReleaseName
  end.

(** The argument of [releaseManagementPlugin], built only when a release
    name was found. *)
Definition releaseManagementPluginArgs {C D : Type} (options : Options C D)
    (name : option jsstring) : option (ReleaseManagementArgs C D) :=
  match name with
  | Some (c :: n) =>
      Some {| releaseName := c :: n;
              shouldCleanArtifacts := cleanArtifacts options;
              shouldUploadSourceMaps := uploadSourceMaps options;
              shouldFinalizeRelease := finalize options;
              setCommitsOption := setCommits options;
              deployOptions := deploy options |}
  | _ => None
  end.

(** *** createRollupReleaseInjectionHooks *)

Definition virtualReleaseInjectionFileId : jsstring :=
  NUL :: str "sentry-release-injection-file".

Record ResolvedId := mkResolvedId {
  id : jsstring;
  external : bool;
  moduleSideEffects : bool
}.

Definition resolveId (id : jsstring) : option ResolvedId :=
  if JSString.eqb id virtualReleaseInjectionFileId then
    Some {| id := virtualReleaseInjectionFileId;
            external := false;
            moduleSideEffects := true |}
  else None.

Definition load (injectionCode : jsstring) (id : jsstring) : option jsstring :=
  if JSString.eqb id virtualReleaseInjectionFileId then Some injectionCode
  else None.

(** [/\\node_modules\\|\/node_modules\//] *)
Definition nodeModulesRegex : regex :=
  Alt (lit (BACKSLASH :: str "node_modules" ++ [BACKSLASH]))
      (lit (SLASH :: str "node_modules" ++ [SLASH])).

Definition transformEndings : list jsstring :=
  [str ".js"; str ".ts"; str ".jsx"; str ".tsx"; str ".mjs"].

(** The statement that [transform] appends. *)
Definition importStatement : jsstring :=
  [LF; LF] ++ str ";import " ++ [DQ] ++ virtualReleaseInjectionFileId
  ++ [DQ] ++ str ";".

(** The id lies under a [node_modules] directory: it contains the name
    between two slashes or between two backslashes. *)
Definition in_node_modules (id : jsstring) : Prop :=
  includes id (BACKSLASH :: str "node_modules" ++ [BACKSLASH])
  \/ includes id (SLASH :: str "node_modules" ++ [SLASH]).

(** The id ends with one of the extensions [transform] accepts. *)
Definition is_source_module (id : jsstring) : Prop :=
  ends_with id (str ".js") \/ ends_with id (str ".ts")
  \/ ends_with id (str ".jsx") \/ ends_with id (str ".tsx")
  \/ ends_with id (str ".mjs").

Definition transform (code : jsstring) (id : jsstring) : option HookResult :=
  if JSString.eqb id virtualReleaseInjectionFileId then None
  else
    match match_ id nodeModulesRegex with
    | Some _ => None
    | None =>
        if negb (some_endsWith transformEndings id) then None
        else
          let ms := MagicString.new code None in
          let ms := MagicString.append ms importStatement in
          Some {| code := MagicString.toString ms;
                  map := MagicString.generateMap ms None |}
    end.

(** *** createRollupDebugIdInjectionHooks *)

Definition getDebugIdSnippet (debugId : jsstring) : jsstring :=
  str ";!function(){try{var e=" ++ quoted "undefined"
  ++ str "!=typeof window?window:" ++ quoted "undefined"
  ++ str "!=typeof global?global:" ++ quoted "undefined"
  ++ str "!=typeof self?self:{},n=(new Error).stack;n&&(e._sentryDebugIds=e._sentryDebugIds||{},e._sentryDebugIds[n]="
  ++ [DQ] ++ debugId ++ [DQ]
  ++ str ",e._sentryDebugIdIdentifier="
  ++ [DQ] ++ str "sentry-dbid-" ++ debugId ++ [DQ]
  ++ str ")}catch(e){}}();".


(** [/\*(?:.|\r|\n)*\*\/] *)
Definition blockComment : regex :=
  seq [ lit [SLASH; STAR];
        Star (Alt (Class Dot) (Alt (Class (Lit CR)) (Class (Lit LF))));
        lit [STAR; SLASH] ].

(** [\/\/.*[\n\r]] *)
Definition lineComment : regex :=
  seq [ lit [SLASH; SLASH]; Star (Class Dot); Class (OneOf [LF; CR]) ].

(** The directive alternatives: the quote [q], any characters but [q],
    the quote again and a semicolon. *)
Definition directive (q : char) : regex :=
  seq [ Class (Lit q); Star (Class (NoneOf [q])); Class (Lit q);
        Class (Lit SEMI) ].

(** The pattern is anchored at the start, repeats the alternatives
    [\s*], block comment and line comment greedily, and ends with an
    optional directive in double or in single quotes. *)
Definition commentUseStrictRegex : regex :=
  seq [ Bol;
        Star (Alt (Star (Class Space)) (Alt blockComment lineComment));
        Opt (Alt (directive DQ) (directive SQ)) ].

Definition renderChunkEndings : list jsstring :=
  [str ".js"; str ".mjs"; str ".cjs"].

(** The file names [renderChunk] works on. *)
Definition is_script (fileName : jsstring) : Prop :=
  ends_with fileName (str ".js") \/ ends_with fileName (str ".mjs")
  \/ ends_with fileName (str ".cjs").

(** The strict-mode directive in double quotes, with its semicolon. *)
Definition useStrict : jsstring := quoted "use strict" ++ [SEMI].

(** [code.match(commentUseStrictRegex)?.[0]] as a condition: the match
    exists and its text is not the empty string. *)
Definition matched_nonempty (r : option match_result) : bool :=
  match r with
  | Some mr => negb (length (matched mr) =? 0)
  | None => false
  end.

Section DebugIdInjection.

(** [stringToUUID] of [./utils]. *)
Variable stringToUUID : jsstring -> jsstring.

Definition renderChunk (code : jsstring) (fileName : jsstring)
  : outcome (option HookResult) :=
  if some_endsWith renderChunkEndings fileName then
    let debugId := stringToUUID code in
    let codeToInject := getDebugIdSnippet debugId in
    let ms := MagicString.new code (Some fileName) in
    ms' <- (if matched_nonempty (match_ code commentUseStrictRegex) then
              MagicString.replace ms commentUseStrictRegex
                (fun mtch => mtch ++ codeToInject)
            else
              Returns (MagicString.prepend ms codeToInject)) ;;
    Returns (Some {| code := MagicString.toString ms';
                     map := MagicString.generateMap ms' (Some fileName) |})
  else
    Returns None.

End DebugIdInjection.

(* ================================================================== *)
(** ** utils.ts: the identifier generator *)
(* ================================================================== *)

Module Utils.

Definition HYPHEN : char := 45%N.

(** The lower-case hexadecimal digit of a value below sixteen. *)
Definition hex_digit (n : N) : char :=
  if (n <? 10)%N then (48 + n)%N else (87 + n)%N.

(** The two hexadecimal digits of a byte. *)
Definition hex_byte (b : N) : jsstring :=
  [hex_digit ((b / 16) mod 16); hex_digit (b mod 16)].

Definition hex_bytes (bs : list N) : jsstring :=
  concat (List.map hex_byte bs).

(** Byte [i] of a digest; a digest that is too short reads as zero. *)
Definition byte_at (digest : list N) (i : nat) : N := nth i digest 0%N.

(** The version and variant fields of the UUID layout. *)
Definition set_version (b : N) : N := N.lor 64 (N.land b 15).
Definition set_variant (b : N) : N := N.lor 128 (N.land b 63).

Section Identifier.

(** The hash over the full content, as the bytes of its digest. *)
Variable hash : jsstring -> list N.

(** Modelled from the spec: [stringToUUID] of [./utils], which is not
    part of the sources at hand.  The content is hashed, the first 128
    bits of the digest are taken, the version and variant bits are
    fixed, and the sixteen bytes are written as five groups of
    hexadecimal digits separated by hyphens. *)
Definition stringToUUID (content : jsstring) : jsstring :=
  let d := hash content in
  let b := byte_at d in
  hex_bytes [b 0; b 1; b 2; b 3] ++ [HYPHEN]
  ++ hex_bytes [b 4; b 5] ++ [HYPHEN]
  ++ hex_bytes [set_version (b 6); b 7] ++ [HYPHEN]
  ++ hex_bytes [set_variant (b 8); b 9] ++ [HYPHEN]
  ++ hex_bytes [b 10; b 11; b 12; b 13; b 14; b 15].

End Identifier.

Definition is_hex (c : char) : bool :=
  ((48 <=? c) && (c <=? 57))%N ||
  ((97 <=? c) && (c <=? 102))%N ||
  ((65 <=? c) && (c <=? 70))%N.

(** The canonical textual shape: hexadecimal groups of 8, 4, 4, 4 and 12
    characters with a hyphen between them. *)
Definition uuid_shape (s : jsstring) : Prop :=
  exists g1 g2 g3 g4 g5 : jsstring,
    s = g1 ++ [HYPHEN] ++ g2 ++ [HYPHEN] ++ g3 ++ [HYPHEN] ++ g4
        ++ [HYPHEN] ++ g5
    /\ length g1 = 8 /\ length g2 = 4 /\ length g3 = 4
    /\ length g4 = 4 /\ length g5 = 12
    /\ Forall (fun c => is_hex c = true) (g1 ++ g2 ++ g3 ++ g4 ++ g5).

End Utils.

(* ================================================================== *)
(** ** plugins/release-management.ts: the release pipeline *)
(* ================================================================== *)

Module ReleasePipeline.

(** The operations of the release-management collaborator. *)
Inductive RemoteOp :=
| Create | Clean | Upload | Commits | Finalize | Deploy.

(** A remote call succeeds ([None]) or fails with an error. *)
Definition Remote := RemoteOp -> option value.

Record Step := mkStep {
  op : RemoteOp;
  enabled : bool;
  fatal : bool
}.

Record PipelineState := mkPipelineState {
  performed : list RemoteOp;       (* remote calls made, oldest first *)
  plugin : PluginState
}.

Definition is_some {A : Type} (o : option A) : bool :=
  match o with
  | Some _ => true
  | None => false
  end.

Section Pipeline.

Context {C D : Type}.
Variable remote : Remote.
Variable handler : option ErrorHandler.

(** Modelled from the spec: the step list of [releaseManagementPlugin],
    which is not part of the sources at hand.  The steps come in the
    order Create, Clean, Upload, Commits, Finalize, Deploy; Create is
    always enabled and is the only fatal step, the others are enabled
    by their flag or by the presence of their option. *)
Definition steps (args : ReleaseManagementArgs C D) : list Step :=
  [ mkStep Create true true;
    mkStep Clean (shouldCleanArtifacts args) false;
    mkStep Upload (shouldUploadSourceMaps args) false;
    mkStep Commits (is_some (setCommitsOption args)) false;
    mkStep Finalize (shouldFinalizeRelease args) false;
    mkStep Deploy (is_some (deployOptions args)) false ].

(** Modelled from the spec: the runner of [releaseManagementPlugin],
    which is not part of the sources at hand.  Steps run one after the
    other and none is retried; a disabled step is skipped; a failure
    goes to the recoverable-error sink; when the sink raises the
    pipeline stops there, and when a fatal step failed no further step
    runs. *)
Fixpoint run (ss : list Step) (st : PipelineState)
  : PipelineState * outcome unit :=
  match ss with
  | [] => (st, Returns tt)
  | s :: rest =>
      if enabled s then
        let st1 := {| performed := performed st ++ [op s];
                      plugin := plugin st |} in
        match remote (op s) with
        | None => run rest st1
        | Some err =>
            let (p, r) := handleRecoverableError handler err (plugin st1) in
            let st2 := {| performed := performed st1; plugin := p |} in
            match r with
            | Throws e => (st2, Throws e)
            | Returns _ =>
                if fatal s then (st2, Returns tt) else run rest st2
            end
        end
      else run rest st
  end.

Definition writeBundle (args : ReleaseManagementArgs C D)
    (st : PipelineState) : PipelineState * outcome unit :=
  run (steps args) st.

End Pipeline.

End ReleasePipeline.

(* ================================================================== *)
(** ** Sample inputs *)
(* ================================================================== *)

(** The generator over a hash whose digest is all zero. *)
Definition zeroUUID : jsstring -> jsstring :=
  Utils.stringToUUID (fun _ => []).

(** A handler that returns. *)
Definition quietHandler : ErrorHandler := fun _ => Returns tt.

(** Options with a release name, upload and finalize on, the rest off. *)
Definition sampleOptions : Options unit unit :=
  {| release := Some (str "v1");
     cleanArtifacts := false;
     uploadSourceMaps := true;
     finalize := true;
     setCommits := None;
     deploy := None;
     errorHandler := None |}.

Definition initialState : ReleasePipeline.PipelineState :=
  {| ReleasePipeline.performed := [];
     ReleasePipeline.plugin := mkPluginState None [] |}.

(* ================================================================== *)
(** ** index.ts: the plugin factory *)
(* ================================================================== *)

(** [options.sourcemaps.assets]: a glob or a list of globs. *)
Inductive Assets :=
| AssetsString (s : jsstring)
| AssetsArray (l : list jsstring).

(** [options.sourcemaps], as far as the factory reads it. *)
Record Sourcemaps := mkSourcemaps {
  assets : option Assets
}.

(** The normalized options the factory reads: the fields that go to the
    release management plugin and the ones that select the other
    plugins. *)
Record FactoryOptions (C D : Type) := mkFactoryOptions {
  base : Options C D;
  injectRelease : bool;
  injectBuildInformation : option bool;  (* of [_experiments] *)
  sourcemaps : option Sourcemaps
}.

(** What the factory takes from outside its own file: the result of
    [validateOptions] and of [determineReleaseName], the working directory,
    the watch mode of the bundler and [generateGlobalInjectorCode]. *)
Record Environment (C D : Type) := mkEnvironment {
  validateOptions : FactoryOptions C D -> bool;
  determineReleaseName : option jsstring;
  cwd : jsstring;
  watchMode : bool;
  generateGlobalInjectorCode : jsstring -> bool -> jsstring
}.

(** The plugins the factory returns, by the function that builds them. *)
Inductive Plugin (C D : Type) :=
| TelemetryPlugin
| ReleaseInjectionPlugin (injectionCode : jsstring)
| DebugIdInjectionPlugin
| ReleaseManagementPlugin (args : ReleaseManagementArgs C D)
| DebugIdUploadPlugin (uploadAssets : Assets) (name : option jsstring).

Arguments TelemetryPlugin {C D}.
Arguments ReleaseInjectionPlugin {C D} injectionCode.
Arguments DebugIdInjectionPlugin {C D}.
Arguments ReleaseManagementPlugin {C D} args.
Arguments DebugIdUploadPlugin {C D} uploadAssets name.

(** The position of a plugin in the order the factory pushes them. *)
Definition pluginRank {C D : Type} (p : Plugin C D) : nat :=
  match p with
  | TelemetryPlugin => 0
  | ReleaseInjectionPlugin _ => 1
  | DebugIdInjectionPlugin => 2
  | ReleaseManagementPlugin _ => 3
  | DebugIdUploadPlugin _ _ => 4
  end.

(** The state the factory works on: the sink's state and the warnings
    given to the logger, oldest first. *)
Record FactoryState := mkFactoryState {
  pluginState : PluginState;
  warnings : list jsstring
}.

Definition optionsError : Error :=
  mkError
    (str "Options were not set correctly. See output above for more details.").

Definition releaseNameError : Error :=
  mkError
    (str "Unable to determine a release name. Please set the `release` option.").

Definition nodeModulesWarning : jsstring :=
  str "Running Sentry plugin from within a `node_modules` folder. Some features may not work.".

(** [options.sourcemaps?.assets] *)
Definition sourcemapsAssets (sm : option Sourcemaps) : option Assets :=
  match sm with
  | Some m => assets m
  | None => None
  end.

(** Truthiness of [string | string[] | undefined]: an array is truthy,
    also the empty one; the empty string is not. *)
Definition truthyAssets (a : option Assets) : bool :=
  match a with
  | Some (AssetsString (_ :: _)) => true
  | Some (AssetsArray _) => true
  | _ => false
  end.

(** [x || false] for [boolean | undefined]. *)
Definition orFalse (b : option bool) : bool :=
  match b with
  | Some true => true
  | _ => false
  end.

Section Factory.

Context {C D : Type}.
Variable env : Environment C D.

(** The plugin list, once the release name is known. *)
Definition factoryPlugins (options : FactoryOptions C D)
    (name : option jsstring) : list (Plugin C D) :=
  [TelemetryPlugin]
  ++ (match name with
      | Some (c :: n) =>
          if injectRelease options then
            [ReleaseInjectionPlugin
               (generateGlobalInjectorCode env (c :: n)
                  (orFalse (injectBuildInformation options)))]
          else []
      | _ => []
      end)
  ++ (if truthyAssets (sourcemapsAssets (sourcemaps options)) then
        [DebugIdInjectionPlugin]
      else [])
  ++ (match releaseManagementPluginArgs (base options) name with
      | Some args => [ReleaseManagementPlugin args]
      | None => []
      end)
  ++ (match sourcemapsAssets (sourcemaps options) with
      | Some a => if negb (watchMode env) then [DebugIdUploadPlugin a name]
                  else []
      | None => []
      end).

(** The callback given to [createUnplugin]: the two checks that go to the
    sink, the warning about the working directory and the plugin list.
    The telemetry set-up, the logger and the CLI object are left out; they
    decide nothing here. *)
Definition sentryUnpluginFactory (options : FactoryOptions C D)
    (st : FactoryState) : FactoryState * outcome (list (Plugin C D)) :=
  let handler := errorHandler (base options) in
  let (p1, r1) :=
    if negb (validateOptions env options) then
      handleRecoverableError handler (VError optionsError) (pluginState st)
    else (pluginState st, Returns tt) in
  match r1 with
  | Throws e => ({| pluginState := p1; warnings := warnings st |}, Throws e)
  | Returns _ =>
      let name :=
        resolveReleaseName (base options) (determineReleaseName env) in
      let (p2, r2) :=
        if negb (truthy name) then
          handleRecoverableError handler (VError releaseNameError) p1
        else (p1, Returns tt) in
      match r2 with
      | Throws e => ({| pluginState := p2; warnings := warnings st |}, Throws e)
      | Returns _ =>
          let w :=
            match match_ (cwd env) nodeModulesRegex with
            | Some _ => warnings st ++ [nodeModulesWarning]
            | None => warnings st
            end in
          ({| pluginState := p2; warnings := w |},
           Returns (factoryPlugins options name))
      end
  end.

End Factory.

(* ================================================================== *)
(** ** Leading text of a chunk *)
(* ================================================================== *)

(** The path [id] has a segment [seg]: [seg] stands in it between two
    separators, slash or backslash, or between a separator and an end of
    the path. *)
Definition has_path_segment (id seg : jsstring) : Prop :=
  exists pre post,
    id = pre ++ seg ++ post
    /\ (pre = [] \/ exists p, pre = p ++ [SLASH] \/ pre = p ++ [BACKSLASH])
    /\ (post = [] \/ exists post', post = SLASH :: post'
                                   \/ post = BACKSLASH :: post').

(** The text [post] starts with nothing the prologue pattern takes: it is
    empty, or its first character is no white space, no slash and no
    quote. *)
Definition plain_start (post : jsstring) : Prop :=
  stops Space post /\ stops (Lit SLASH) post
  /\ stops (Lit DQ) post /\ stops (Lit SQ) post.

(** The characters the body of a block comment takes: all but the line
    and paragraph separators. *)
Definition blockable (c : char) : bool :=
  negb (N.eqb c LS || N.eqb c PS).

(** The body of a block comment cannot go on into [post]. *)
Definition block_stops (post : jsstring) : Prop :=
  match post with
  | [] => True
  | ch :: _ => blockable ch = false
  end.

(** The inside of the block comment alternative: [.], [\r] or [\n]. *)
Definition anyChar : regex :=
  Alt (Class Dot) (Alt (Class (Lit CR)) (Class (Lit LF))).

(** What a greedy repetition that took [n] characters from [x] on does
    with its continuation: try it at the far end first, then one
    character back, down to [x]. *)
Fixpoint greedy (c : continuation) (x n : nat) : option nat :=
  match n with
  | O => c x
  | S n' => orelse (greedy c (S x) n') (c x)
  end.

(** The three fixed parts of the snippet, around the two places of the
    identifier. *)
Definition snippetHead : jsstring :=
  str ";!function(){try{var e=" ++ quoted "undefined"
  ++ str "!=typeof window?window:" ++ quoted "undefined"
  ++ str "!=typeof global?global:" ++ quoted "undefined"
  ++ str "!=typeof self?self:{},n=(new Error).stack;n&&(e._sentryDebugIds=e._sentryDebugIds||{},e._sentryDebugIds[n]="
  ++ [DQ].

Definition snippetMiddle : jsstring :=
  [DQ] ++ str ",e._sentryDebugIdIdentifier=" ++ [DQ] ++ str "sentry-dbid-".

Definition snippetTail : jsstring :=
  [DQ] ++ str ")}catch(e){}}();".

(** The release name the factory works with:
    [options.release ?? determineReleaseName()]. *)
Definition factoryReleaseName {C D : Type} (env : Environment C D)
    (options : FactoryOptions C D) : option jsstring :=
  resolveReleaseName (base options) (determineReleaseName env).

(** Tests for the kind of a plugin. *)
Definition isReleaseManagement {C D : Type} (p : Plugin C D) : bool :=
  match p with
  | ReleaseManagementPlugin _ => true
  | _ => false
  end.

Definition isReleaseInjection {C D : Type} (p : Plugin C D) : bool :=
  match p with
  | ReleaseInjectionPlugin _ => true
  | _ => false
  end.

Definition isDebugIdInjection {C D : Type} (p : Plugin C D) : bool :=
  match p with
  | DebugIdInjectionPlugin => true
  | _ => false
  end.

Definition isDebugIdUpload {C D : Type} (p : Plugin C D) : bool :=
  match p with
  | DebugIdUploadPlugin _ _ => true
  | _ => false
  end.

(** A handler that throws the error it is given. *)
Definition rethrowHandler : ErrorHandler := fun e => Throws (VError e).

(** Factory options around [sampleOptions], with debug ids on. *)
Definition sampleFactoryOptions : FactoryOptions unit unit :=
  {| base := sampleOptions;
     injectRelease := true;
     injectBuildInformation := None;
     sourcemaps := Some (mkSourcemaps (Some (AssetsString (str "dist/**")))) |}.

(** The same options without a release name and with a handler. *)
Definition namelessFactoryOptions (h : ErrorHandler)
  : FactoryOptions unit unit :=
  {| base := {| release := None;
                cleanArtifacts := false;
                uploadSourceMaps := true;
                finalize := true;
                setCommits := None;
                deploy := None;
                errorHandler := Some h |};
     injectRelease := true;
     injectBuildInformation := None;
     sourcemaps := None |}.

(** An environment that accepts the options, finds no release name by
    itself and runs outside [node_modules]. *)
Definition sampleEnvironment : Environment unit unit :=
  {| validateOptions := fun _ => true;
     determineReleaseName := None;
     cwd := str "/home/app";
     watchMode := false;
     generateGlobalInjectorCode := fun name _ => str "release=" ++ name |}.

(** The same environment inside a dependency. *)
Definition dependencyEnvironment : Environment unit unit :=
  {| validateOptions := fun _ => true;
     determineReleaseName := None;
     cwd := str "/home/app/node_modules/pkg";
     watchMode := false;
     generateGlobalInjectorCode := fun name _ => str "release=" ++ name |}.

(** Options whose release is the empty string, with a handler. *)
Definition emptyReleaseOptions : FactoryOptions unit unit :=
  {| base := {| release := Some [];
                cleanArtifacts := false;
                uploadSourceMaps := true;
                finalize := true;
                setCommits := None;
                deploy := None;
                errorHandler := Some quietHandler |};
     injectRelease := true;
     injectBuildInformation := None;
     sourcemaps := None |}.

(** An environment in which a release name can be determined. *)
Definition gitEnvironment : Environment unit unit :=
  {| validateOptions := fun _ => true;
     determineReleaseName := Some (str "from-git");
     cwd := str "/home/app";
     watchMode := false;
     generateGlobalInjectorCode := fun name _ => str "release=" ++ name |}.

Definition initialFactoryState : FactoryState :=
  {| pluginState := mkPluginState None []; warnings := [] |}.

(* ================================================================== *)
(** * Properties *)
(* ================================================================== *)

(** ** Strings *)

Lemma eqb_eq (a b : jsstring) : JSString.eqb a b = true <-> a = b.
Proof.
  revert b; induction a as [|x a IH]; intros [|y b]; simpl;
    try (split; [discriminate | discriminate]); try tauto.
  rewrite andb_true_iff, N.eqb_eq, IH.
  split; [intros [-> ->]; reflexivity | intros H; inversion H; auto].
Qed.

Lemma eqb_refl (a : jsstring) : JSString.eqb a a = true.
Proof. apply eqb_eq; reflexivity. Qed.

Lemma eqb_neq (a b : jsstring) : JSString.eqb a b = false <-> a <> b.
Proof.
  rewrite <- eqb_eq. destruct (JSString.eqb a b); split; congruence.
Qed.

Lemma endsWith_spec (s ending : jsstring) :
  endsWith s ending = true <-> ends_with s ending.
Proof.
  unfold endsWith, ends_with. rewrite andb_true_iff, Nat.leb_le, eqb_eq.
  split.
  - intros [Hle Heq].
    exists (firstn (length s - length ending) s).
    rewrite <- (firstn_skipn (length s - length ending) s) at 1.
    rewrite Heq. reflexivity.
  - intros [pre ->]. rewrite length_app. split; [lia|].
    replace (length pre + length ending - length ending) with (length pre + 0)
      by lia.
    rewrite skipn_app, Nat.add_0_r, skipn_all.
    replace (length pre - length pre) with 0 by lia. reflexivity.
Qed.

Lemma some_endsWith_spec (endings : list jsstring) (s : jsstring) :
  some_endsWith endings s = true <->
  exists ending, In ending endings /\ ends_with s ending.
Proof.
  unfold some_endsWith. rewrite existsb_exists.
  split; intros [e [Hin H]]; exists e; split; auto; apply endsWith_spec; auto.
Qed.

Lemma substring_from_0 (s : jsstring) (e : nat) :
  substring s 0 e = firstn e s.
Proof. unfold substring. rewrite Nat.sub_0_r. reflexivity. Qed.

Lemma substring_to_end (s : jsstring) (n : nat) :
  substring s n (length s) = skipn n s.
Proof.
  unfold substring. apply firstn_all2. rewrite length_skipn. lia.
Qed.

(** ** The matcher *)

Section MatcherFacts.

Variable input : jsstring.

Lemma orelse_Some (a b : option nat) (z : nat) :
  orelse a b = Some z -> a = Some z \/ (a = None /\ b = Some z).
Proof. destruct a; simpl; intros H; [left | right]; auto. Qed.

Lemma orelse_None (a b : option nat) :
  orelse a b = None <-> a = None /\ b = None.
Proof.
  destruct a; simpl; [|tauto].
  split; [discriminate | intros [H _]; discriminate].
Qed.

Lemma repeat_matcher_reaches body :
  reaches input body -> forall fuel, reaches input (repeat_matcher body fuel).
Proof.
  intros Hb fuel; induction fuel as [|fuel IH]; intros x c z Hx H; simpl in H.
  - exists x; split; [lia | assumption].
  - apply orelse_Some in H as [H | [_ H]].
    + apply Hb in H as [y [Hy H]]; [|assumption].
      destruct (y =? x); [discriminate|].
      apply IH in H as [y' [Hy' H]]; [|lia].
      exists y'; split; [lia | assumption].
    + exists x; split; [lia | assumption].
Qed.

Lemma m_reaches (r : regex) : reaches input (m input r).
Proof.
  induction r as [| | cs | r1 IH1 r2 IH2 | r1 IH1 r2 IH2 | r IH | r IH];
    intros x c z Hx H; cbn [m] in H.
  - exists x; split; [lia | assumption].
  - destruct (x =? 0); [|discriminate].
    exists x; split; [lia | assumption].
  - destruct (nth_error input x) as [ch|] eqn:E; [|discriminate].
    destruct (in_class cs ch); [|discriminate].
    assert (x < length input) by (apply nth_error_Some; congruence).
    exists (S x); split; [lia | assumption].
  - apply IH1 in H as [y [Hy H]]; [|assumption].
    apply IH2 in H as [y' [Hy' H]]; [|lia].
    exists y'; split; [lia | assumption].
  - apply orelse_Some in H as [H | [_ H]]; [apply IH1 in H | apply IH2 in H];
      assumption.
  - apply (repeat_matcher_reaches IH) in H; assumption.
  - apply orelse_Some in H as [H | [_ H]].
    + apply IH in H as [y [Hy H]]; [|assumption].
      destruct (y =? x); [discriminate|].
      exists y; split; assumption.
    + exists x; split; [lia | assumption].
Qed.

Lemma repeat_matcher_local body :
  local input body -> forall fuel, local input (repeat_matcher body fuel).
Proof.
  intros Hb fuel; induction fuel as [|fuel IH]; intros x c c' Hx H; simpl.
  - apply H; lia.
  - rewrite (H x) by lia. f_equal.
    apply Hb; [assumption|]. intros y Hy.
    destruct (y =? x); [reflexivity|].
    apply IH; [lia|]. intros y' Hy'; apply H; lia.
Qed.

Lemma m_local (r : regex) : local input (m input r).
Proof.
  induction r as [| | cs | r1 IH1 r2 IH2 | r1 IH1 r2 IH2 | r IH | r IH];
    intros x c c' Hx H; cbn [m].
  - apply H; lia.
  - destruct (x =? 0); [apply H; lia | reflexivity].
  - destruct (nth_error input x) as [ch|] eqn:E; [|reflexivity].
    destruct (in_class cs ch); [|reflexivity].
    assert (x < length input) by (apply nth_error_Some; congruence).
    apply H; lia.
  - apply IH1; [assumption|]. intros y Hy.
    apply IH2; [lia|]. intros y' Hy'; apply H; lia.
  - rewrite (IH1 x c c'), (IH2 x c c') by assumption. reflexivity.
  - apply (repeat_matcher_local IH); assumption.
  - rewrite (H x) by lia. f_equal.
    apply IH; [assumption|]. intros y Hy.
    destruct (y =? x); [reflexivity | apply H; assumption].
Qed.

(** The fuel that [Star] gives to the repetition is never used up: any
    larger amount gives the same result, so the bound cuts no iteration
    that the unbounded repetition would make. *)
Lemma repeat_matcher_fuel (r : regex) (c : continuation) :
  forall fuel x, x <= length input -> length input - x < fuel ->
    repeat_matcher (m input r) (S fuel) x c
    = repeat_matcher (m input r) fuel x c.
Proof.
  induction fuel as [|fuel IH]; intros x Hx Hf; [lia|].
  change (orelse
            (m input r x (fun y => if y =? x then None
               else repeat_matcher (m input r) (S fuel) y c)) (c x)
          = orelse
            (m input r x (fun y => if y =? x then None
               else repeat_matcher (m input r) fuel y c)) (c x)).
  f_equal. apply m_local; [assumption|]. intros y Hy.
  destruct (y =? x) eqn:E; [reflexivity|].
  apply Nat.eqb_neq in E. apply IH; lia.
Qed.

Lemma repeat_matcher_succeeds body (c : continuation) :
  (forall y, c y <> None) ->
  forall fuel x, repeat_matcher body fuel x c <> None.
Proof.
  intros Hc [|fuel] x; simpl; [apply Hc|].
  intros H. apply orelse_None in H as [_ H]. exact (Hc x H).
Qed.

Lemma search_first (r : regex) (fuel i e : nat) :
  m input r i (fun e => Some e) = Some e ->
  search input r fuel i = Some (i, e).
Proof. intros H. destruct fuel; simpl; rewrite H; reflexivity. Qed.

(** [search] finds nothing exactly when the matcher fails at every start
    index it tries. *)
Lemma search_None (r : regex) (fuel i : nat) :
  search input r fuel i = None <->
  forall j, i <= j <= i + fuel -> m input r j (fun e => Some e) = None.
Proof.
  revert i; induction fuel as [|fuel IH]; intros i; simpl.
  - destruct (m input r i (fun e => Some e)) eqn:E.
    + split; [discriminate|]. intros H.
      rewrite (H i) in E by lia. discriminate.
    + split; [|reflexivity]. intros _ j Hj.
      replace j with i by lia. assumption.
  - destruct (m input r i (fun e => Some e)) eqn:E.
    + split; [discriminate|]. intros H.
      rewrite (H i) in E by lia. discriminate.
    + rewrite IH. split; intros H j Hj.
      * destruct (Nat.eq_dec j i) as [->|]; [assumption | apply H; lia].
      * apply H; lia.
Qed.

End MatcherFacts.

(** ** The editor *)

(** Overwriting a non-empty prefix of a fresh editor does not throw and
    leaves the new content followed by the rest of the original. *)
Lemma overwrite_prefix (s : jsstring) (fname : option jsstring) (n : nat)
    (c : jsstring) :
  0 < n <= length s ->
  exists ms',
    MagicString.overwrite (MagicString.new s fname) 0 n c = Returns ms'
    /\ MagicString.toString ms' = c ++ skipn n s.
Proof.
  intros [Hn Hle]. unfold MagicString.overwrite, MagicString.new.
  cbn [MagicString.original MagicString.chunks MagicString.filename
       MagicString.intro MagicString.outro].
  destruct (Nat.ltb_spec (length s) n) as [Hlt|_]; [lia|].
  destruct (Nat.eqb_spec 0 n) as [E|_]; [lia|].
  replace (n <? 0) with false by (symmetry; apply Nat.ltb_ge; lia).
  cbn [MagicString.split MagicString.start MagicString.end_ bind].
  replace (0 <? 0) with false by reflexivity.
  cbn [andb bind MagicString.split MagicString.start MagicString.end_
       MagicString.edited MagicString.content].
  replace (0 <? n) with true by (symmetry; apply Nat.ltb_lt; lia).
  destruct (Nat.ltb_spec n (length s)) as [Hlt|Hge]; cbn [andb bind].
  - eexists; split; [reflexivity|].
    unfold MagicString.toString; cbn.
    replace (n <=? n) with true by (symmetry; apply Nat.leb_le; lia).
    replace (length s <=? n) with false by (symmetry; apply Nat.leb_gt; lia).
    cbn.
    rewrite substring_to_end, !app_nil_r. reflexivity.
  - assert (n = length s) as -> by lia.
    eexists; split; [reflexivity|].
    unfold MagicString.toString; cbn.
    rewrite Nat.leb_refl. cbn.
    rewrite skipn_all, !app_nil_r. reflexivity.
Qed.

(** ** Runs of one character class *)

Section ClassRuns.

Variable input : jsstring.

Lemma m_class_at (cs : charclass) (pre post : jsstring) (ch : char)
    (x : nat) (c : continuation) :
  x = length pre -> input = pre ++ ch :: post ->
  m input (Class cs) x c = if in_class cs ch then c (S x) else None.
Proof.
  intros -> ->. cbn [m].
  rewrite nth_error_app2, Nat.sub_diag by lia. reflexivity.
Qed.

Lemma m_class_stops (cs : charclass) (pre post : jsstring) (x : nat)
    (c : continuation) :
  x = length pre -> input = pre ++ post -> stops cs post ->
  m input (Class cs) x c = None.
Proof.
  intros -> -> Hs. cbn [m].
  rewrite nth_error_app2, Nat.sub_diag by lia.
  destruct post as [|ch post]; [reflexivity|].
  simpl in Hs |- *. rewrite Hs. reflexivity.
Qed.

(** A greedy repetition of a class that cannot take a single character
    hands over to its continuation on the spot. *)
Lemma m_star_class_stops (cs : charclass) (pre post : jsstring) (x : nat)
    (c : continuation) :
  x = length pre -> input = pre ++ post -> stops cs post ->
  m input (Star (Class cs)) x c = c x.
Proof.
  intros Hx Hi Hs.
  change (m input (Star (Class cs)) x c)
    with (repeat_matcher (m input (Class cs)) (S (length input - x)) x c).
  cbn [repeat_matcher].
  rewrite (@m_class_stops cs pre post x _ Hx Hi Hs). reflexivity.
Qed.

Lemma repeat_class_run (cs : charclass) (post : jsstring) (c : continuation)
    (z : nat) :
  stops cs post ->
  forall run pre fuel x,
    length run < fuel -> x = length pre -> input = pre ++ run ++ post ->
    Forall (fun ch => in_class cs ch = true) run ->
    c (x + length run) = Some z ->
    repeat_matcher (m input (Class cs)) fuel x c = Some z.
Proof.
  intros Hs run; induction run as [|a run IH];
    intros pre fuel x Hf Hx Hi Hrun Hc;
    (destruct fuel as [|fuel]; [simpl in Hf; lia|]); cbn [repeat_matcher].
  - rewrite (@m_class_stops cs pre post x _ Hx Hi Hs).
    simpl in Hc. rewrite Nat.add_0_r in Hc. exact Hc.
  - apply Forall_cons_iff in Hrun as [Ha Hrun'].
    rewrite (@m_class_at cs pre (run ++ post) a x _ Hx Hi), Ha.
    replace (S x =? x) with false by (symmetry; apply Nat.eqb_neq; lia).
    rewrite (IH (pre ++ [a]) fuel (S x)); try assumption.
    + reflexivity.
    + simpl in Hf; lia.
    + rewrite length_app; simpl; lia.
    + rewrite Hi, <- app_assoc. reflexivity.
    + simpl in Hc. replace (S x + length run) with (x + S (length run)) by lia.
      exact Hc.
Qed.

(** A greedy repetition of a class over a run of the class that cannot go
    on takes the whole run first. *)
Lemma m_star_class_run (cs : charclass) (pre run post : jsstring) (x : nat)
    (c : continuation) (z : nat) :
  x = length pre -> input = pre ++ run ++ post ->
  Forall (fun ch => in_class cs ch = true) run -> stops cs post ->
  c (x + length run) = Some z ->
  m input (Star (Class cs)) x c = Some z.
Proof.
  intros Hx Hi Hrun Hs Hc.
  change (m input (Star (Class cs)) x c)
    with (repeat_matcher (m input (Class cs)) (S (length input - x)) x c).
  apply (@repeat_class_run cs post c z Hs run pre); try assumption.
  rewrite Hi, Hx, !length_app. lia.
Qed.

End ClassRuns.

(** ** A directive after white space *)

Section Unfolding.

Variable input : jsstring.

Lemma m_Seq (r1 r2 : regex) (x : nat) (c : continuation) :
  m input (Seq r1 r2) x c = m input r1 x (fun y => m input r2 y c).
Proof. reflexivity. Qed.

Lemma m_Alt (r1 r2 : regex) (x : nat) (c : continuation) :
  m input (Alt r1 r2) x c = orelse (m input r1 x c) (m input r2 x c).
Proof. reflexivity. Qed.

Lemma m_Opt (r : regex) (x : nat) (c : continuation) :
  m input (Opt r) x c
  = orelse (m input r x (fun y => if y =? x then None else c y)) (c x).
Proof. reflexivity. Qed.

Lemma m_Star (r : regex) (x : nat) (c : continuation) :
  m input (Star r) x c
  = repeat_matcher (m input r) (S (length input - x)) x c.
Proof. reflexivity. Qed.


End Unfolding.

Section SpacedDirective.

Variable q : char.
Hypothesis Hq : q = DQ \/ q = SQ.


Lemma directive_fails (q' : char) (input pre post : jsstring) (x : nat)
    (k : continuation) :
  q <> q' -> x = length pre -> input = pre ++ q :: post ->
  m input (directive q') x k = None.
Proof.
  intros Hn Hx Hi. unfold directive. cbn [seq].
  rewrite m_Seq, (@m_class_at input (Lit q') pre post q x _ Hx Hi).
  cbn [in_class]. apply N.eqb_neq in Hn. rewrite Hn. reflexivity.
Qed.


(** The alternatives of the outer repetition all fail in front of a quote
    when an empty iteration is refused. *)
Lemma prologue_item_fails (input pre post : jsstring) (x : nat)
    (d : continuation) :
  x = length pre -> input = pre ++ q :: post -> d x = None ->
  m input (Alt (Star (Class Space)) (Alt blockComment lineComment)) x d
  = None.
Proof.
  intros Hx Hi Hd. rewrite !m_Alt.
  rewrite (@m_star_class_stops input Space pre (q :: post) x d Hx Hi), Hd.
  - unfold blockComment, lineComment. cbn [seq lit].
    rewrite !m_Seq, !(@m_class_at input (Lit SLASH) pre post q x _ Hx Hi).
    cbn [in_class]. destruct Hq as [-> | ->]; reflexivity.
  - cbn [stops in_class]. destruct Hq as [-> | ->]; reflexivity.
Qed.

Lemma prologue_repeat_at_quote (input pre post : jsstring) (x : nat)
    (c : continuation) (fuel : nat) :
  x = length pre -> input = pre ++ q :: post ->
  repeat_matcher
    (m input (Alt (Star (Class Space)) (Alt blockComment lineComment)))
    fuel x c
  = c x.
Proof.
  intros Hx Hi. destruct fuel as [|fuel]; cbn [repeat_matcher]; [reflexivity|].
  rewrite (@prologue_item_fails input pre post x _ Hx Hi); [reflexivity|].
  cbv beta. rewrite Nat.eqb_refl. reflexivity.
Qed.


End SpacedDirective.

(** ** The hooks of index.ts *)

(** The prologue pattern matches at the start of every text: the match is
    a prefix of the text, possibly empty. *)
Lemma commentUseStrictRegex_matches (code : jsstring) :
  exists n, n <= length code /\
    match_ code commentUseStrictRegex = Some (MatchResult 0 (firstn n code)).
Proof.
  destruct (m code commentUseStrictRegex 0 (fun e => Some e)) as [e|] eqn:E.
  - assert (Hr := E). apply m_reaches in Hr as [y [Hy Hs]]; [|lia].
    injection Hs as ->.
    exists e; split; [lia|].
    unfold match_. rewrite (search_first _ _ _ _ E), substring_from_0.
    reflexivity.
  - exfalso. revert E. unfold commentUseStrictRegex. cbn [seq m Nat.eqb].
    apply repeat_matcher_succeeds. intros y H.
    apply orelse_None in H as [_ H]. discriminate.
Qed.

Section DebugIdInjectionFacts.

Variable stringToUUID : jsstring -> jsstring.

(** The result of [renderChunk] on a script chunk: the snippet stands
    right after the text that the prologue pattern matched. *)
Lemma renderChunk_script (code fileName : jsstring) :
  some_endsWith renderChunkEndings fileName = true ->
  exists n mp,
    n <= length code
    /\ match_ code commentUseStrictRegex
       = Some (MatchResult 0 (firstn n code))
    /\ renderChunk stringToUUID code fileName
       = Returns (Some {|
           code := firstn n code
                   ++ getDebugIdSnippet (stringToUUID code)
                   ++ skipn n code;
           map := mp |}).
Proof.
  intros Hf. destruct (commentUseStrictRegex_matches code) as [n [Hn Hm]].
  unfold renderChunk. rewrite Hf, Hm. cbn [matched_nonempty matched].
  rewrite length_firstn, Nat.min_l by assumption.
  destruct (Nat.eqb_spec n 0) as [->|Hn0]; cbn [negb].
  - exists 0. eexists. split; [lia|]. split; [reflexivity|].
    cbn [bind]. unfold MagicString.toString. cbn.
    rewrite !app_nil_r. reflexivity.
  - unfold MagicString.replace.
    cbn [MagicString.original MagicString.new].
    rewrite Hm. cbn [index matched].
    rewrite length_firstn, Nat.min_l by assumption.
    destruct (overwrite_prefix code (Some fileName)
                (firstn n code ++ getDebugIdSnippet (stringToUUID code))
                (n := n)) as [ms' [Ho Hs]]; [lia|].
    cbn [Nat.add]. unfold MagicString.new in Ho |- *.
    rewrite Ho. cbn [bind]. rewrite Hs, <- app_assoc.
    exists n. eexists. split; [assumption|]. split; reflexivity.
Qed.

End DebugIdInjectionFacts.

Lemma is_script_spec (fileName : jsstring) :
  some_endsWith renderChunkEndings fileName = true <-> is_script fileName.
Proof.
  rewrite some_endsWith_spec. unfold is_script, renderChunkEndings. split.
  - intros [e [[<-|[<-|[<-|[]]]] H]]; auto.
  - intros [H|[H|H]]; eexists; (split; [|exact H]); simpl; auto.
Qed.



Section DebugIdInjectionClaims.

Variable stringToUUID : jsstring -> jsstring.

(** When the pattern matched [prefix] and the code is [prefix ++ suffix],
    the edited code is [prefix], the snippet, [suffix]. *)
Lemma renderChunk_at_match (code fileName prefix suffix : jsstring) :
  is_script fileName ->
  match_ code commentUseStrictRegex = Some (MatchResult 0 prefix) ->
  code = prefix ++ suffix ->
  exists mp,
    renderChunk stringToUUID code fileName
    = Returns (Some {|
        code := prefix ++ getDebugIdSnippet (stringToUUID code) ++ suffix;
        map := mp |}).
Proof.
  intros Hf Hm Hc. apply is_script_spec in Hf.
  destruct (@renderChunk_script stringToUUID code fileName Hf)
    as [n [mp [Hn [Hm' Hr]]]].
  rewrite Hm in Hm'. injection Hm' as Hp.
  assert (Hs : suffix = skipn n code).
  { apply (app_inv_head prefix). rewrite <- Hc, Hp.
    symmetry; apply firstn_skipn. }
  exists mp. rewrite Hr, Hp, Hs. reflexivity.
Qed.


(** C9: on a chunk with a matching file name the original code stays
    whole: it splits into a prefix and a suffix, and the edited code is
    the prefix, the snippet and the suffix, so the snippet enters at one
    position and every original character keeps its place and order. *)
Theorem renderChunk_preserves_code (code fileName : jsstring) :
  is_script fileName ->
  exists prefix suffix mp,
    prefix ++ suffix = code
    /\ renderChunk stringToUUID code fileName
       = Returns (Some {|
           code := prefix ++ getDebugIdSnippet (stringToUUID code) ++ suffix;
           map := mp |})
    /\ length (prefix ++ getDebugIdSnippet (stringToUUID code) ++ suffix)
       = length code + length (getDebugIdSnippet (stringToUUID code)).
Proof.
  intros Hf. apply is_script_spec in Hf.
  destruct (@renderChunk_script stringToUUID code fileName Hf)
    as [n [mp [Hn [_ Hr]]]].
  exists (firstn n code), (skipn n code), mp.
  split; [apply firstn_skipn|]. split; [assumption|].
  rewrite !length_app, length_firstn, length_skipn. lia.
Qed.

(** C6: [renderChunk] returns null exactly when the file name ends in
    none of .js, .mjs and .cjs; for such a name it returns null for every
    code and every identifier generator. *)
Theorem renderChunk_null_iff_not_script (code fileName : jsstring) :
  (renderChunk stringToUUID code fileName = Returns None
   <-> ~ is_script fileName)
  /\ (~ is_script fileName ->
      forall (generator : jsstring -> jsstring) (code' : jsstring),
        renderChunk generator code' fileName = Returns None).
Proof.
  assert (Hno : ~ is_script fileName ->
            forall g c, renderChunk g c fileName = Returns None).
  { intros Hn g c. unfold renderChunk.
    destruct (some_endsWith renderChunkEndings fileName) eqn:E;
      [|reflexivity].
    exfalso; apply Hn, is_script_spec, E. }
  split; [split|]; auto.
  intros Hr Hs. apply is_script_spec in Hs.
  destruct (@renderChunk_script stringToUUID code fileName Hs) as [n [mp [_ [_ H]]]].
  rewrite H in Hr. discriminate.
Qed.

End DebugIdInjectionClaims.

(** ** Literal patterns and substrings *)

Lemma skipn_nth_error (input : jsstring) (x : nat) :
  skipn x input
  = match nth_error input x with
    | Some ch => ch :: skipn (S x) input
    | None => []
    end.
Proof.
  revert x; induction input as [|a input IH]; intros [|x]; try reflexivity.
  simpl. rewrite IH. destruct (nth_error input x); reflexivity.
Qed.

Lemma m_lit (input l : jsstring) :
  forall x c,
    m input (lit l) x c
    = if starts_at input x l then c (x + length l) else None.
Proof.
  unfold starts_at. induction l as [|a l IH]; intros x c.
  - simpl. rewrite Nat.add_0_r. reflexivity.
  - cbn [lit m in_class length]. rewrite (skipn_nth_error input x).
    destruct (nth_error input x) as [ch|]; [|reflexivity].
    cbn [firstn JSString.eqb]. rewrite IH.
    destruct (N.eqb ch a); cbn [andb]; [|reflexivity].
    replace (S x + length l) with (x + S (length l)) by lia. reflexivity.
Qed.

Lemma starts_at_spec (input : jsstring) (x : nat) (l : jsstring) :
  starts_at input x l = true <-> exists post, skipn x input = l ++ post.
Proof.
  unfold starts_at. rewrite eqb_eq. split.
  - intros H. exists (skipn (length l) (skipn x input)).
    rewrite <- (firstn_skipn (length l) (skipn x input)) at 1.
    rewrite H. reflexivity.
  - intros [post ->]. rewrite firstn_app, Nat.sub_diag, firstn_all.
    simpl. apply app_nil_r.
Qed.

Lemma includes_spec (input l : jsstring) :
  includes input l
  <-> exists x, x <= length input /\ starts_at input x l = true.
Proof.
  split.
  - intros [pre [post ->]]. exists (length pre). split.
    + rewrite length_app; lia.
    + apply starts_at_spec. exists post.
      rewrite skipn_app, skipn_all, Nat.sub_diag. reflexivity.
  - intros [x [_ H]]. apply starts_at_spec in H as [post H].
    exists (firstn x input), post. rewrite <- H.
    symmetry; apply firstn_skipn.
Qed.

Lemma search_Some (input : jsstring) (r : regex) (fuel : nat) :
  forall i j e, search input r fuel i = Some (j, e) ->
    m input r j (fun e => Some e) = Some e.
Proof.
  induction fuel as [|fuel IH]; intros i j e; simpl;
    destruct (m input r i (fun e => Some e)) eqn:E; intros H;
    try discriminate; try (injection H as <- <-; assumption).
  apply IH in H. assumption.
Qed.

Lemma nodeModulesRegex_Some (id : jsstring) (mr : match_result) :
  match_ id nodeModulesRegex = Some mr -> in_node_modules id.
Proof.
  unfold match_, in_node_modules, nodeModulesRegex.
  set (A := BACKSLASH :: str "node_modules" ++ [BACKSLASH]).
  set (B := SLASH :: str "node_modules" ++ [SLASH]).
  destruct (search id (Alt (lit A) (lit B)) (length id) 0) as [[i e]|] eqn:E;
    [|discriminate].
  intros _. apply search_Some in E. cbn [m] in E. rewrite !m_lit in E.
  destruct (starts_at id i A) eqn:EA.
  - left. apply starts_at_spec in EA as [post H].
    exists (firstn i id), post. rewrite <- H. symmetry; apply firstn_skipn.
  - destruct (starts_at id i B) eqn:EB; [|discriminate].
    right. apply starts_at_spec in EB as [post H].
    exists (firstn i id), post. rewrite <- H. symmetry; apply firstn_skipn.
Qed.

Lemma nodeModulesRegex_None (id : jsstring) :
  match_ id nodeModulesRegex = None -> ~ in_node_modules id.
Proof.
  unfold match_, in_node_modules, nodeModulesRegex.
  set (A := BACKSLASH :: str "node_modules" ++ [BACKSLASH]).
  set (B := SLASH :: str "node_modules" ++ [SLASH]).
  destruct (search id (Alt (lit A) (lit B)) (length id) 0) as [[i e]|] eqn:E;
    [discriminate|].
  intros _ Hin.
  assert (Hj : forall j, j <= length id ->
             starts_at id j A = false /\ starts_at id j B = false).
  { intros j Hj.
    pose proof (proj1 (search_None id _ _ _) E j
                  (conj (Nat.le_0_l j) Hj)) as H.
    cbn [m] in H. apply orelse_None in H as [H1 H2].
    rewrite m_lit in H1, H2.
    destruct (starts_at id j A); [discriminate|].
    destruct (starts_at id j B); [discriminate|]. auto. }
  destruct Hin as [H|H]; apply includes_spec in H as [j [Hle H]];
    destruct (Hj j Hle) as [H1 H2]; congruence.
Qed.

(** [id.match(nodeModulesRegex)] is null exactly when the id does not lie
    under a [node_modules] directory. *)
Lemma nodeModulesRegex_spec (id : jsstring) :
  match_ id nodeModulesRegex = None <-> ~ in_node_modules id.
Proof.
  split; [apply nodeModulesRegex_None|].
  destruct (match_ id nodeModulesRegex) as [mr|] eqn:E; [|reflexivity].
  intros H. exfalso. apply H. exact (nodeModulesRegex_Some id E).
Qed.

Lemma is_source_module_spec (id : jsstring) :
  some_endsWith transformEndings id = true <-> is_source_module id.
Proof.
  rewrite some_endsWith_spec. unfold is_source_module, transformEndings. split.
  - intros [e [[<-|[<-|[<-|[<-|[<-|[]]]]]] H]]; auto 6.
  - intros [H|[H|[H|[H|H]]]]; eexists; (split; [|exact H]); simpl; auto 6.
Qed.

(** ** Release injection *)

(** The segments of a text that was not edited and stands at the same
    offset in both texts send every offset to itself. *)
Lemma unedited_segments_diagonal (text : jsstring) :
  forall first o,
    Forall (fun s => fst s = snd s /\ o <= snd s < o + length text)
      (MagicString.unedited_segments first o o text).
Proof.
  induction text as [|c text IH]; intros first o; simpl; [constructor|].
  apply Forall_app; split.
  - destruct first; repeat constructor; simpl; lia.
  - apply (Forall_impl _ (P := fun s => fst s = snd s
                               /\ S o <= snd s < S o + length text));
      [|apply IH].
    intros s [H1 H2]. split; [exact H1 | lia].
Qed.

(** An id whose first path segment is [node_modules] has a
    [node_modules] path segment, and [transform] appends the import to
    it. *)
Lemma transform_relative_node_modules :
  has_path_segment (str "node_modules/main.mjs") (str "node_modules")
  /\ exists mp,
       transform (str "x();") (str "node_modules/main.mjs")
       = Some {| code := str "x();" ++ importStatement; map := mp |}.
Proof.
  split.
  - exists [], (str "/main.mjs"). split; [reflexivity|]. split.
    + left; reflexivity.
    + right. exists (str "main.mjs"). left; reflexivity.
  - eexists. vm_compute. reflexivity.
Qed.

(** C5, amended: [transform] returns null for the synthetic id, for an id
    that contains [node_modules] between two slashes or between two
    backslashes, and for an id that ends with none of .js, .ts, .jsx, .tsx
    and .mjs; for every other id it returns the input code followed by the
    import statement of the synthetic module, with a generated map that
    names no file and sends offsets of the unchanged code to
    themselves. *)
Theorem transform_declines_or_appends (code id : jsstring) :
  (id = virtualReleaseInjectionFileId \/ in_node_modules id
   \/ ~ is_source_module id ->
   transform code id = None)
  /\ (~ (id = virtualReleaseInjectionFileId \/ in_node_modules id
         \/ ~ is_source_module id) ->
      exists mp,
        transform code id
        = Some {| code := code ++ importStatement; map := mp |}
        /\ MagicString.file mp = None
        /\ Forall (fun s => fst s = snd s /\ snd s < length code)
             (MagicString.segments mp))
  /\ importStatement
     = [LF; LF] ++ str ";import " ++ [DQ] ++ [NUL]
       ++ str "sentry-release-injection-file" ++ [DQ; SEMI].
Proof.
  unfold transform.
  destruct (JSString.eqb id virtualReleaseInjectionFileId) eqn:Eid.
  { apply eqb_eq in Eid. split; [reflexivity|]. split; [|reflexivity].
    intros H; exfalso; apply H; left; assumption. }
  apply eqb_neq in Eid.
  destruct (match_ id nodeModulesRegex) eqn:Enm.
  { split; [reflexivity|]. split; [|reflexivity].
    intros H; exfalso; apply H; right; left.
    exact (nodeModulesRegex_Some id Enm). }
  apply nodeModulesRegex_spec in Enm.
  destruct (some_endsWith transformEndings id) eqn:Eend; cbn [negb].
  - apply is_source_module_spec in Eend. split; [|split; [|reflexivity]].
    + intros [H|[H|H]]; contradiction.
    + intros _. eexists. split; [|split].
      * unfold MagicString.toString. cbn. rewrite app_nil_r. reflexivity.
      * reflexivity.
      * cbn. rewrite app_nil_r, Nat.sub_0_r, firstn_all.
        apply (Forall_impl _ (P := fun s => fst s = snd s
                                   /\ 0 <= snd s < 0 + length code));
          [|apply unedited_segments_diagonal].
        intros s [H1 H2]. split; [exact H1 | lia].
  - split; [reflexivity|]. split; [|reflexivity].
    intros H; exfalso; apply H; right; right.
    rewrite <- is_source_module_spec, Eend. discriminate.
Qed.

(** C8: [resolveId] returns the marker (the same id, not external, with
    side effects) exactly for the synthetic id and null for every other id,
    and [load] returns the injection code exactly for the synthetic id and
    null for every other id, so both accept the same single id. *)
Theorem resolveId_load_synthetic_only (injectionCode id : jsstring) :
  (id = virtualReleaseInjectionFileId ->
   resolveId id = Some {| id := id; external := false;
                          moduleSideEffects := true |}
   /\ load injectionCode id = Some injectionCode)
  /\ (id <> virtualReleaseInjectionFileId ->
      resolveId id = None /\ load injectionCode id = None)
  /\ (resolveId id <> None <-> load injectionCode id <> None)
  /\ virtualReleaseInjectionFileId
     = NUL :: str "sentry-release-injection-file".
Proof.
  unfold resolveId, load. split; [|split; [|split]].
  - intros ->. rewrite eqb_refl. split; reflexivity.
  - intros H. apply eqb_neq in H. rewrite H. split; reflexivity.
  - destruct (JSString.eqb id virtualReleaseInjectionFileId);
      split; intros H; congruence.
  - reflexivity.
Qed.

(** ** The recoverable-error sink *)

(** The sink with a handler that throws what it is given: the call made
    with the string [boom] throws. *)
Lemma handleRecoverableError_throwing_handler :
  snd (handleRecoverableError (Some (fun e => Throws (VError e)))
         (VString (str "boom")) (mkPluginState None []))
  = Throws (VError (mkError (str "An unknown error occured"))).
Proof. reflexivity. Qed.

(** C4, amended: with a handler configured the sink calls it exactly once,
    with the error itself when that is an instance of Error and with the
    generic Error otherwise, and the sink finishes the way that call does:
    it returns when the handler returns, so nothing is thrown then, and
    what the handler throws goes on to the caller.  Without a handler the
    sink throws the original value unchanged and calls nothing.  In both
    cases the transaction status becomes internal_error. *)
Theorem handleRecoverableError_policy (unknownError : value)
    (st : PluginState) :
  (forall h : ErrorHandler,
     handleRecoverableError (Some h) unknownError st
     = ({| transactionStatus := Some (str "internal_error");
           handlerCalls := handlerCalls st ++ [delivered unknownError] |},
        h (delivered unknownError))
     /\ (h (delivered unknownError) = Returns tt ->
         snd (handleRecoverableError (Some h) unknownError st) = Returns tt))
  /\ handleRecoverableError None unknownError st
     = ({| transactionStatus := Some (str "internal_error");
           handlerCalls := handlerCalls st |},
        Throws unknownError)
  /\ (forall e, delivered (VError e) = e)
  /\ ((forall e, unknownError <> VError e) ->
      delivered unknownError = mkError (str "An unknown error occured")).
Proof.
  split; [|split; [|split]].
  - intros h.
    assert (E : handleRecoverableError (Some h) unknownError st
                = ({| transactionStatus := Some (str "internal_error");
                      handlerCalls :=
                        handlerCalls st ++ [delivered unknownError] |},
                   h (delivered unknownError)))
      by (destruct unknownError; reflexivity).
    split; [exact E|]. intros Hh. rewrite E. exact Hh.
  - reflexivity.
  - reflexivity.
  - intros H. destruct unknownError; try reflexivity.
    exfalso; exact (H e eq_refl).
Qed.

(** ** The snippet *)



(** For an identifier that is a double quote followed by two slashes, the
    string that should hold the identifier closes at once and a line
    comment opens inside the snippet. *)
Example getDebugIdSnippet_opens_comment :
  includes (getDebugIdSnippet (DQ :: str "//"))
    (str "e._sentryDebugIds[n]=" ++ [DQ; DQ] ++ str "//").
Proof.
  apply includes_spec. exists 188. split; [vm_compute; lia|].
  vm_compute. reflexivity.
Qed.





(** ** The identifier generator *)

Lemma hex_digit_is_hex (n : N) :
  (n < 16)%N -> Utils.is_hex (Utils.hex_digit n) = true.
Proof.
  intros H. unfold Utils.is_hex, Utils.hex_digit.
  destruct (N.ltb_spec n 10) as [Hlt|Hge].
  - apply orb_true_iff; left. apply orb_true_iff; left.
    apply andb_true_iff; split; apply N.leb_le; lia.
  - apply orb_true_iff; left. apply orb_true_iff; right.
    apply andb_true_iff; split; apply N.leb_le; lia.
Qed.

Lemma hex_byte_is_hex (b : N) :
  Forall (fun c => Utils.is_hex c = true) (Utils.hex_byte b).
Proof.
  unfold Utils.hex_byte.
  repeat constructor; apply hex_digit_is_hex; apply N.mod_lt; discriminate.
Qed.

Lemma hex_bytes_is_hex (bs : list N) :
  Forall (fun c => Utils.is_hex c = true) (Utils.hex_bytes bs).
Proof.
  unfold Utils.hex_bytes. induction bs as [|b bs IH]; cbn [List.map concat].
  - constructor.
  - apply Forall_app; split; [apply hex_byte_is_hex | exact IH].
Qed.

Lemma hex_bytes_length (bs : list N) :
  length (Utils.hex_bytes bs) = 2 * length bs.
Proof.
  unfold Utils.hex_bytes. induction bs as [|b bs IH]; simpl; [reflexivity|].
  rewrite IH. lia.
Qed.

(** C3: for every hash and every content, the empty one included, the
    generator returns a string of five groups of hexadecimal digits, of
    lengths 8, 4, 4, 4 and 12, separated by hyphens; being a total
    function it returns for every content. *)
Theorem stringToUUID_shape (hash : jsstring -> list N) (content : jsstring) :
  Utils.uuid_shape (Utils.stringToUUID hash content)
  /\ length (Utils.stringToUUID hash content) = 36
  /\ Utils.uuid_shape (Utils.stringToUUID hash []).
Proof.
  assert (H : forall s, Utils.uuid_shape (Utils.stringToUUID hash s)).
  { intros s. unfold Utils.uuid_shape, Utils.stringToUUID.
    set (b := Utils.byte_at (hash s)).
    exists (Utils.hex_bytes [b 0; b 1; b 2; b 3]),
           (Utils.hex_bytes [b 4; b 5]),
           (Utils.hex_bytes [Utils.set_version (b 6); b 7]),
           (Utils.hex_bytes [Utils.set_variant (b 8); b 9]),
           (Utils.hex_bytes [b 10; b 11; b 12; b 13; b 14; b 15]).
    split; [reflexivity|].
    rewrite !hex_bytes_length. repeat (split; [reflexivity|]).
    do 4 (apply Forall_app; split; [apply hex_bytes_is_hex|]).
    apply hex_bytes_is_hex. }
  split; [apply H|]. split; [|apply H].
  unfold Utils.stringToUUID. rewrite !length_app, !hex_bytes_length.
  reflexivity.
Qed.

(** ** The release pipeline *)

(** C7: when a release name was found, artifacts are not cleaned, source
    maps are uploaded, the release is finalized, no commit range and no
    deploy are configured and every remote call succeeds, the pipeline
    makes the remote calls Create, Upload and Finalize, in this order and
    no other, and returns without calling the error sink. *)
Theorem release_pipeline_create_upload_finalize (C D : Type)
    (options : Options C D) (determined : option jsstring)
    (remote : ReleasePipeline.Remote) (st : ReleasePipeline.PipelineState) :
  cleanArtifacts options = false ->
  uploadSourceMaps options = true ->
  finalize options = true ->
  setCommits options = None ->
  deploy options = None ->
  (forall op, remote op = None) ->
  truthy (resolveReleaseName options determined) = true ->
  exists args,
    releaseManagementPluginArgs options (resolveReleaseName options determined)
    = Some args
    /\ ReleasePipeline.writeBundle remote (errorHandler options) args st
       = ({| ReleasePipeline.performed :=
               ReleasePipeline.performed st
               ++ [ReleasePipeline.Create; ReleasePipeline.Upload;
                   ReleasePipeline.Finalize];
             ReleasePipeline.plugin := ReleasePipeline.plugin st |},
          Returns tt).
Proof.
  intros Hclean Hupload Hfinal Hcommits Hdeploy Hremote Hname.
  unfold releaseManagementPluginArgs.
  destruct (resolveReleaseName options determined) as [[|c n]|];
    try discriminate.
  eexists. split; [reflexivity|].
  unfold ReleasePipeline.writeBundle, ReleasePipeline.steps.
  cbn [shouldCleanArtifacts shouldUploadSourceMaps shouldFinalizeRelease
       setCommitsOption deployOptions].
  rewrite Hclean, Hupload, Hfinal, Hcommits, Hdeploy.
  cbn [ReleasePipeline.run ReleasePipeline.enabled ReleasePipeline.op
       ReleasePipeline.is_some ReleasePipeline.performed
       ReleasePipeline.plugin].
  rewrite !Hremote. rewrite <- !app_assoc. reflexivity.
Qed.

(** ** Sample runs *)

Example prologue_of_plain_code :
  match_ (str "foo();") commentUseStrictRegex = Some (MatchResult 0 []).
Proof. vm_compute. reflexivity. Qed.

Example prologue_of_directive_and_comment :
  match_ (useStrict ++ [LF] ++ str "// comment" ++ [LF] ++ str "foo();")
    commentUseStrictRegex
  = Some (MatchResult 0 useStrict).
Proof. vm_compute. reflexivity. Qed.

Example prologue_of_comment_and_directive :
  match_ (str "// banner" ++ [LF] ++ str "'use strict';foo();")
    commentUseStrictRegex
  = Some (MatchResult 0 (str "// banner" ++ [LF] ++ str "'use strict';")).
Proof. vm_compute. reflexivity. Qed.

Example prologue_of_white_space :
  match_ (str "  foo();") commentUseStrictRegex
  = Some (MatchResult 0 (str "  ")).
Proof. vm_compute. reflexivity. Qed.

Example prologue_block_comment_is_greedy :
  match_ (str "/* a */x();/* b */y();") commentUseStrictRegex
  = Some (MatchResult 0 (str "/* a */x();/* b */")).
Proof. vm_compute. reflexivity. Qed.

Example prologue_of_empty_code :
  match_ [] commentUseStrictRegex = Some (MatchResult 0 []).
Proof. vm_compute. reflexivity. Qed.

Example renderChunk_directive_and_comment :
  let input := useStrict ++ [LF] ++ str "// comment" ++ [LF] ++ str "foo();" in
  renderChunk zeroUUID input (str "assets/main.js")
  = Returns (Some {|
      code := useStrict ++ getDebugIdSnippet (zeroUUID input)
              ++ [LF] ++ str "// comment" ++ [LF] ++ str "foo();";
      map := {| MagicString.file := Some (str "main.js");
                MagicString.segments :=
                  [(0, 0); (354, 13); (355, 14); (366, 25)] |} |}).
Proof. vm_compute. reflexivity. Qed.

Example renderChunk_plain_code :
  renderChunk zeroUUID (str "foo();") (str "main.cjs")
  = Returns (Some {|
      code := getDebugIdSnippet (zeroUUID (str "foo();")) ++ str "foo();";
      map := {| MagicString.file := Some (str "main.cjs");
                MagicString.segments := [(341, 0)] |} |}).
Proof. vm_compute. reflexivity. Qed.

Example renderChunk_markup :
  renderChunk zeroUUID (str "<p>") (str "index.html") = Returns None.
Proof. vm_compute. reflexivity. Qed.

Example zeroUUID_value :
  zeroUUID [] = str "00000000-0000-4000-8000-000000000000".
Proof. vm_compute. reflexivity. Qed.

Example transform_two_lines :
  transform (str "a" ++ [LF] ++ str "b") (str "/app/src/main.js")
  = Some {| code := str "a" ++ [LF] ++ str "b" ++ importStatement;
            map := {| MagicString.file := None;
                      MagicString.segments := [(0, 0); (2, 2)] |} |}.
Proof. vm_compute. reflexivity. Qed.

Example renderChunk_empty_code :
  renderChunk zeroUUID [] (str "main.js")
  = Returns (Some {|
      code := getDebugIdSnippet (zeroUUID []);
      map := {| MagicString.file := Some (str "main.js");
                MagicString.segments := [] |} |}).
Proof. vm_compute. reflexivity. Qed.

Example transform_source_module :
  transform (str "x();") (str "/app/src/main.tsx")
  = Some {| code := str "x();" ++ importStatement;
            map := {| MagicString.file := None;
                      MagicString.segments := [(0, 0)] |} |}.
Proof. vm_compute. reflexivity. Qed.

Example transform_dependency :
  transform (str "x();") (str "C:" ++ [BACKSLASH] ++ str "app" ++ [BACKSLASH]
                          ++ str "node_modules" ++ [BACKSLASH] ++ str "a.js")
  = None.
Proof. vm_compute. reflexivity. Qed.

Example transform_stylesheet :
  transform (str "a{}") (str "/app/src/main.css") = None.
Proof. vm_compute. reflexivity. Qed.

(** ** The theorems at sample inputs *)


Lemma renderChunk_preserves_code_witness :
  is_script (str "chunk.mjs")
  /\ exists prefix suffix mp,
       prefix ++ suffix = useStrict ++ str "foo();"
       /\ renderChunk zeroUUID (useStrict ++ str "foo();") (str "chunk.mjs")
          = Returns (Some {|
              code := prefix
                      ++ getDebugIdSnippet
                           (zeroUUID (useStrict ++ str "foo();"))
                      ++ suffix;
              map := mp |})
       /\ length (prefix
                  ++ getDebugIdSnippet (zeroUUID (useStrict ++ str "foo();"))
                  ++ suffix)
          = length (useStrict ++ str "foo();")
            + length (getDebugIdSnippet
                        (zeroUUID (useStrict ++ str "foo();"))).
Proof.
  assert (H : is_script (str "chunk.mjs"))
    by (right; left; exists (str "chunk"); reflexivity).
  split; [exact H|].
  exact (renderChunk_preserves_code zeroUUID (useStrict ++ str "foo();") H).
Defined.

Lemma renderChunk_null_iff_not_script_witness :
  ~ is_script (str "index.html")
  /\ renderChunk zeroUUID (str "<p>") (str "index.html") = Returns None.
Proof.
  assert (H : ~ is_script (str "index.html")).
  { intros H. apply is_script_spec in H. vm_compute in H. discriminate. }
  split; [exact H|].
  exact (proj2 (proj1 (renderChunk_null_iff_not_script zeroUUID (str "<p>")
                         (str "index.html"))) H).
Defined.


Lemma transform_declines_or_appends_witness :
  in_node_modules (str "/app/node_modules/lib/index.js")
  /\ transform (str "x();") (str "/app/node_modules/lib/index.js") = None
  /\ ~ (str "/app/src/main.ts" = virtualReleaseInjectionFileId
        \/ in_node_modules (str "/app/src/main.ts")
        \/ ~ is_source_module (str "/app/src/main.ts"))
  /\ exists mp,
       transform (str "x();") (str "/app/src/main.ts")
       = Some {| code := str "x();" ++ importStatement; map := mp |}
       /\ MagicString.file mp = None
       /\ Forall (fun s => fst s = snd s /\ snd s < length (str "x();"))
            (MagicString.segments mp).
Proof.
  assert (H1 : in_node_modules (str "/app/node_modules/lib/index.js")).
  { right. exists (str "/app"), (str "lib/index.js"). reflexivity. }
  assert (H2 : ~ (str "/app/src/main.ts" = virtualReleaseInjectionFileId
                  \/ in_node_modules (str "/app/src/main.ts")
                  \/ ~ is_source_module (str "/app/src/main.ts"))).
  { intros [H|[H|H]].
    - discriminate.
    - revert H. apply nodeModulesRegex_spec. vm_compute. reflexivity.
    - apply H. right; left. exists (str "/app/src/main"). reflexivity. }
  split; [exact H1|]. split.
  - exact (proj1 (transform_declines_or_appends (str "x();")
                    (str "/app/node_modules/lib/index.js"))
             (or_intror (or_introl H1))).
  - split; [exact H2|].
    exact (proj1 (proj2 (transform_declines_or_appends (str "x();")
                           (str "/app/src/main.ts"))) H2).
Defined.

Lemma resolveId_load_synthetic_only_witness :
  resolveId virtualReleaseInjectionFileId
  = Some {| id := virtualReleaseInjectionFileId; external := false;
            moduleSideEffects := true |}
  /\ load (str "release()") virtualReleaseInjectionFileId
     = Some (str "release()")
  /\ str "/app/src/main.ts" <> virtualReleaseInjectionFileId
  /\ resolveId (str "/app/src/main.ts") = None
  /\ load (str "release()") (str "/app/src/main.ts") = None.
Proof.
  assert (H : str "/app/src/main.ts" <> virtualReleaseInjectionFileId)
    by discriminate.
  destruct (proj1 (resolveId_load_synthetic_only (str "release()")
                     virtualReleaseInjectionFileId) eq_refl) as [R L].
  destruct (proj1 (proj2 (resolveId_load_synthetic_only (str "release()")
                            (str "/app/src/main.ts"))) H) as [R' L'].
  repeat split; assumption.
Defined.

Lemma handleRecoverableError_policy_witness :
  quietHandler (delivered (VString (str "boom"))) = Returns tt
  /\ snd (handleRecoverableError (Some quietHandler) (VString (str "boom"))
            (mkPluginState None []))
     = Returns tt
  /\ delivered (VString (str "boom"))
     = mkError (str "An unknown error occured").
Proof.
  pose proof (handleRecoverableError_policy (VString (str "boom"))
                (mkPluginState None [])) as [Hh [_ [_ Hd]]].
  split; [reflexivity|]. split.
  - exact (proj2 (Hh quietHandler) eq_refl).
  - apply Hd. intros e H. discriminate.
Defined.


Lemma release_pipeline_create_upload_finalize_witness :
  exists args,
    releaseManagementPluginArgs sampleOptions
      (resolveReleaseName sampleOptions None) = Some args
    /\ ReleasePipeline.writeBundle (fun _ => None)
         (errorHandler sampleOptions) args initialState
       = ({| ReleasePipeline.performed :=
               [ReleasePipeline.Create; ReleasePipeline.Upload;
                ReleasePipeline.Finalize];
             ReleasePipeline.plugin := mkPluginState None [] |},
          Returns tt).
Proof.
  exact (release_pipeline_create_upload_finalize sampleOptions None
           (fun _ => None) initialState
           eq_refl eq_refl eq_refl eq_refl eq_refl (fun _ => eq_refl) eq_refl).
Defined.

(* ================================================================== *)
(** * Further properties of index.ts *)
(* ================================================================== *)

(** ** The prologue pattern in front of plain code *)

Lemma firstn_length_app (p r : jsstring) : firstn (length p) (p ++ r) = p.
Proof.
  induction p as [|a p IH]; simpl; [destruct r; reflexivity|].
  rewrite IH. reflexivity.
Qed.

Lemma skipn_length_app (p r : jsstring) : skipn (length p) (p ++ r) = r.
Proof. induction p as [|a p IH]; simpl; [reflexivity | exact IH]. Qed.

(** A match that ends at the length of [p] on an input [p ++ r] is the
    match [p] at index 0. *)
Lemma match_prefix (re : regex) (p r : jsstring) :
  m (p ++ r) re 0 (fun e => Some e) = Some (length p) ->
  match_ (p ++ r) re = Some (MatchResult 0 p).
Proof.
  intros E. unfold match_.
  rewrite (search_first _ _ _ _ E), substring_from_0, firstn_length_app.
  reflexivity.
Qed.

Lemma orelse_None_r (a : option nat) : orelse a None = a.
Proof. destruct a; reflexivity. Qed.

Section PlainStart.

Variables (input pre post : jsstring) (x : nat).
Hypothesis Hx : x = length pre.
Hypothesis Hi : input = pre ++ post.
Hypothesis Hp : plain_start post.

Lemma prologue_item_fails_plain (d : continuation) :
  d x = None ->
  m input (Alt (Star (Class Space)) (Alt blockComment lineComment)) x d
  = None.
Proof.
  intros Hd. destruct Hp as [Hs [Hsl _]]. rewrite !m_Alt.
  rewrite (@m_star_class_stops input Space pre post x d Hx Hi Hs), Hd.
  unfold blockComment, lineComment. cbn [seq lit].
  rewrite !m_Seq, !(@m_class_stops input (Lit SLASH) pre post x _ Hx Hi Hsl).
  reflexivity.
Qed.

Lemma prologue_repeat_at_plain (c : continuation) (fuel : nat) :
  repeat_matcher
    (m input (Alt (Star (Class Space)) (Alt blockComment lineComment)))
    fuel x c
  = c x.
Proof.
  destruct fuel as [|fuel]; cbn [repeat_matcher]; [reflexivity|].
  rewrite prologue_item_fails_plain; [reflexivity|].
  cbv beta. rewrite Nat.eqb_refl. reflexivity.
Qed.

Lemma opt_directive_at_plain :
  m input (Opt (Alt (directive DQ) (directive SQ))) x (fun e => Some e)
  = Some x.
Proof.
  destruct Hp as [_ [_ [Hd Hq]]].
  rewrite m_Opt, m_Alt. unfold directive. cbn [seq].
  rewrite !m_Seq.
  rewrite (@m_class_stops input (Lit DQ) pre post x _ Hx Hi Hd).
  rewrite (@m_class_stops input (Lit SQ) pre post x _ Hx Hi Hq).
  reflexivity.
Qed.

(** From a plain start on, the rest of the pattern matches nothing. *)
Lemma prologue_tail_at_plain (fuel : nat) :
  repeat_matcher
    (m input (Alt (Star (Class Space)) (Alt blockComment lineComment)))
    fuel x
    (fun y => m input (Opt (Alt (directive DQ) (directive SQ))) y
                (fun e => Some e))
  = Some x.
Proof. rewrite prologue_repeat_at_plain. exact opt_directive_at_plain. Qed.

End PlainStart.

Lemma commentUseStrictRegex_unfold (input : jsstring) :
  m input commentUseStrictRegex 0 (fun e => Some e)
  = repeat_matcher
      (m input (Alt (Star (Class Space)) (Alt blockComment lineComment)))
      (S (length input - 0)) 0
      (fun y => m input (Opt (Alt (directive DQ) (directive SQ))) y
                  (fun e => Some e)).
Proof. reflexivity. Qed.

(** White space, then a plain start: the pattern matches the white
    space. *)
Lemma spaces_then_plain_matched (ws post : jsstring) :
  Forall (fun ch => is_space ch = true) ws -> plain_start post ->
  match_ (ws ++ post) commentUseStrictRegex = Some (MatchResult 0 ws).
Proof.
  intros Hws Hp. apply match_prefix. rewrite commentUseStrictRegex_unfold.
  destruct ws as [|w ws'].
  - apply (@prologue_tail_at_plain ([] ++ post) [] post 0 eq_refl eq_refl Hp).
  - cbn [repeat_matcher]. rewrite m_Alt.
    rewrite (@m_star_class_run ((w :: ws') ++ post) Space [] (w :: ws') post
               0 _ (length (w :: ws')) eq_refl eq_refl Hws (proj1 Hp)).
    + reflexivity.
    + cbv beta. cbn [Nat.add length Nat.eqb].
      apply (@prologue_tail_at_plain ((w :: ws') ++ post) (w :: ws') post
               (S (length ws')) eq_refl eq_refl Hp).
Qed.

(** ** A leading line comment *)

(** A line comment closed by a line feed or a carriage return, then a
    plain start: the pattern matches the comment with its line end. *)
Lemma line_comment_matched (text post : jsstring) (nl : char) :
  Forall (fun ch => is_line_terminator ch = false) text ->
  nl = LF \/ nl = CR ->
  plain_start post ->
  match_ (([SLASH; SLASH] ++ text ++ [nl]) ++ post) commentUseStrictRegex
  = Some (MatchResult 0 ([SLASH; SLASH] ++ text ++ [nl])).
Proof.
  intros Htext Hnl Hp. apply match_prefix.
  set (input := ([SLASH; SLASH] ++ text ++ [nl]) ++ post).
  assert (Hin : input = SLASH :: SLASH :: text ++ nl :: post).
  { unfold input. simpl. rewrite <- app_assoc. reflexivity. }
  assert (Hlen : length ([SLASH; SLASH] ++ text ++ [nl]) = S (2 + length text)).
  { simpl. rewrite length_app. simpl. lia. }
  rewrite commentUseStrictRegex_unfold. cbn [repeat_matcher]. rewrite !m_Alt.
  (* the white space alternative takes nothing *)
  rewrite (@m_star_class_stops input Space [] input 0 _ eq_refl eq_refl)
    by (rewrite Hin; reflexivity).
  cbv beta. cbn [Nat.eqb orelse].
  (* the block comment alternative fails on the second slash *)
  unfold blockComment at 1. cbn [seq]. rewrite m_Seq, m_lit.
  replace (starts_at input 0 [SLASH; STAR]) with false
    by (rewrite Hin; reflexivity).
  cbn [orelse].
  (* the line comment alternative takes the line *)
  unfold lineComment. cbn [seq]. rewrite m_Seq, m_lit.
  replace (starts_at input 0 [SLASH; SLASH]) with true
    by (rewrite Hin; symmetry; apply eqb_refl).
  rewrite m_Seq.
  rewrite (@m_star_class_run input Dot [SLASH; SLASH] text (nl :: post)
             (0 + length [SLASH; SLASH]) _ (S (2 + length text)) eq_refl).
  - rewrite Hlen. reflexivity.
  - rewrite Hin. reflexivity.
  - apply (Forall_impl _ (P := fun ch => is_line_terminator ch = false));
      [|exact Htext].
    intros ch Hch. cbn [in_class]. rewrite Hch. reflexivity.
  - cbn [stops in_class]. destruct Hnl as [-> | ->]; reflexivity.
  - rewrite (@m_class_at input (OneOf [LF; CR]) ([SLASH; SLASH] ++ text) post
               nl).
    + replace (in_class (OneOf [LF; CR]) nl) with true
        by (destruct Hnl as [-> | ->]; reflexivity).
      replace (S (0 + length [SLASH; SLASH] + length text) =? 0) with false
        by reflexivity.
      rewrite (@prologue_tail_at_plain input ([SLASH; SLASH] ++ text ++ [nl])
                 post (S (0 + length [SLASH; SLASH] + length text))).
      * reflexivity.
      * rewrite Hlen. reflexivity.
      * reflexivity.
      * exact Hp.
    + rewrite length_app. reflexivity.
    + rewrite Hin. reflexivity.
Qed.

(** ** A leading block comment *)

Section GreedyAny.

Variable input : jsstring.

Lemma m_anyChar_at (pre post : jsstring) (ch : char) (x : nat)
    (k : continuation) :
  x = length pre -> input = pre ++ ch :: post ->
  m input anyChar x k = if blockable ch then k (S x) else None.
Proof.
  intros Hx Hi. unfold anyChar. rewrite !m_Alt.
  rewrite (@m_class_at input Dot pre post ch x _ Hx Hi).
  rewrite (@m_class_at input (Lit CR) pre post ch x _ Hx Hi).
  rewrite (@m_class_at input (Lit LF) pre post ch x _ Hx Hi).
  cbn [in_class]. unfold is_line_terminator, blockable.
  destruct (N.eqb_spec ch LS) as [-> | _]; [reflexivity|].
  destruct (N.eqb_spec ch PS) as [-> | _]; [reflexivity|].
  destruct (N.eqb_spec ch CR) as [-> | _]; [cbn; apply orelse_None_r|].
  destruct (N.eqb ch LF); cbn; [reflexivity | apply orelse_None_r].
Qed.

Lemma m_anyChar_stops (pre post : jsstring) (x : nat) (k : continuation) :
  x = length pre -> input = pre ++ post -> block_stops post ->
  m input anyChar x k = None.
Proof.
  intros Hx Hi Hs. destruct post as [|ch post'].
  - unfold anyChar. rewrite !m_Alt.
    rewrite !(@m_class_stops input _ pre [] x _ Hx Hi I). reflexivity.
  - rewrite (@m_anyChar_at pre post' ch x k Hx Hi).
    simpl in Hs. rewrite Hs. reflexivity.
Qed.

(** The repetition inside a block comment takes every character it can
    and then gives them back one by one. *)
Lemma repeat_anyChar_greedy (post : jsstring) (k : continuation) :
  block_stops post ->
  forall run pre fuel x,
    length run < fuel -> x = length pre -> input = pre ++ run ++ post ->
    Forall (fun ch => blockable ch = true) run ->
    repeat_matcher (m input anyChar) fuel x k = greedy k x (length run).
Proof.
  intros Hs run; induction run as [|a run IH];
    intros pre fuel x Hf Hx Hi Hrun;
    (destruct fuel as [|fuel]; [simpl in Hf; lia|]);
    cbn [repeat_matcher length greedy].
  - rewrite (@m_anyChar_stops pre post x _ Hx Hi Hs). reflexivity.
  - apply Forall_cons_iff in Hrun as [Ha Hrun'].
    rewrite (@m_anyChar_at pre (run ++ post) a x _ Hx Hi), Ha.
    replace (S x =? x) with false by (symmetry; apply Nat.eqb_neq; lia).
    rewrite (IH (pre ++ [a]) fuel (S x)); try assumption.
    + reflexivity.
    + simpl in Hf; lia.
    + rewrite length_app; simpl; lia.
    + rewrite Hi, <- app_assoc. reflexivity.
Qed.

End GreedyAny.

Lemma greedy_None (c : continuation) (n : nat) :
  forall x, (forall j, j <= n -> c (x + j) = None) -> greedy c x n = None.
Proof.
  induction n as [|n IH]; intros x H; cbn [greedy].
  - rewrite <- (Nat.add_0_r x). apply H. lia.
  - rewrite IH.
    + cbn [orelse]. rewrite <- (Nat.add_0_r x). apply H. lia.
    + intros j Hj. replace (S x + j) with (x + S j) by lia. apply H. lia.
Qed.

(** Giving back stops at the last index where the continuation
    succeeds. *)
Lemma greedy_last (c : continuation) (z : nat) (n : nat) :
  forall x k, k <= n -> c (x + k) = Some z ->
    (forall j, k < j <= n -> c (x + j) = None) ->
    greedy c x n = Some z.
Proof.
  induction n as [|n IH]; intros x k Hk Hc Hn; cbn [greedy].
  - replace k with 0 in Hc by lia. rewrite Nat.add_0_r in Hc. exact Hc.
  - destruct k as [|k].
    + rewrite greedy_None.
      * cbn [orelse]. rewrite Nat.add_0_r in Hc. exact Hc.
      * intros j Hj. replace (S x + j) with (x + S j) by lia. apply Hn. lia.
    + rewrite (IH (S x) k); [reflexivity | lia | |].
      * replace (S x + k) with (x + S k) by lia. exact Hc.
      * intros j Hj. replace (S x + j) with (x + S j) by lia. apply Hn. lia.
Qed.

Lemma span_blockable (rest : jsstring) :
  exists r1 r2, rest = r1 ++ r2
    /\ Forall (fun ch => blockable ch = true) r1 /\ block_stops r2.
Proof.
  induction rest as [|a rest [r1 [r2 [E [H1 H2]]]]].
  - exists [], []. repeat split. constructor.
  - destruct (blockable a) eqn:Ea.
    + exists (a :: r1), r2. rewrite E. repeat split; [|exact H2].
      constructor; assumption.
    + exists [], (a :: rest). repeat split; [constructor | exact Ea].
Qed.

(** No block comment end stands in the input after the one that closes
    the comment. *)
Lemma no_later_comment_end (body rest : jsstring) (j : nat) :
  ~ includes rest [STAR; SLASH] -> length body < j ->
  starts_at (SLASH :: STAR :: body ++ STAR :: SLASH :: rest) (2 + j)
    [STAR; SLASH] = false.
Proof.
  intros Hno Hj.
  destruct (starts_at _ (2 + j) [STAR; SLASH]) eqn:E; [|reflexivity].
  exfalso. apply starts_at_spec in E as [post' E].
  replace (2 + j) with ((j - length body) + length (SLASH :: STAR :: body))
    in E by (simpl; lia).
  rewrite <- skipn_skipn in E.
  change (SLASH :: STAR :: body ++ STAR :: SLASH :: rest)
    with ((SLASH :: STAR :: body) ++ STAR :: SLASH :: rest) in E.
  rewrite skipn_length_app in E.
  destruct (j - length body) as [|[|i]] eqn:Ej; [lia | |].
  - cbn [skipn app] in E. discriminate.
  - cbn [skipn] in E. apply Hno.
    exists (firstn i rest), post'. rewrite <- E. symmetry; apply firstn_skipn.
Qed.

(** A block comment whose end is the last one in the code, then a plain
    start: the pattern matches up to that end, whatever stands between the
    opening and it. *)
Lemma block_comment_matched (body rest : jsstring) :
  Forall (fun ch => blockable ch = true) body ->
  ~ includes rest [STAR; SLASH] ->
  plain_start rest ->
  match_ (([SLASH; STAR] ++ body ++ [STAR; SLASH]) ++ rest)
    commentUseStrictRegex
  = Some (MatchResult 0 ([SLASH; STAR] ++ body ++ [STAR; SLASH])).
Proof.
  intros Hbody Hno Hp. apply match_prefix.
  set (input := ([SLASH; STAR] ++ body ++ [STAR; SLASH]) ++ rest).
  assert (Hin : input = SLASH :: STAR :: body ++ STAR :: SLASH :: rest).
  { unfold input. simpl. rewrite <- app_assoc. reflexivity. }
  assert (Hlen : length ([SLASH; STAR] ++ body ++ [STAR; SLASH])
                 = 2 + length body + 2).
  { simpl. rewrite length_app. simpl. lia. }
  destruct (span_blockable rest) as [r1 [r2 [Er [Hr1 Hr2]]]].
  rewrite commentUseStrictRegex_unfold. cbn [repeat_matcher]. rewrite !m_Alt.
  rewrite (@m_star_class_stops input Space [] input 0 _ eq_refl eq_refl)
    by (rewrite Hin; reflexivity).
  cbv beta. cbn [Nat.eqb orelse].
  unfold blockComment. cbn [seq]. rewrite m_Seq, m_lit.
  replace (starts_at input 0 [SLASH; STAR]) with true
    by (rewrite Hin; symmetry; apply eqb_refl).
  rewrite m_Seq.
  change (Alt (Class Dot) (Alt (Class (Lit CR)) (Class (Lit LF))))
    with anyChar.
  rewrite m_Star.
  rewrite (@repeat_anyChar_greedy input r2 _ Hr2
             (body ++ [STAR; SLASH] ++ r1) [SLASH; STAR]).
  - rewrite (@greedy_last _ (2 + length body + 2) _ _ (length body)).
    + rewrite Hlen. reflexivity.
    + rewrite length_app. lia.
    + rewrite m_lit.
      replace (starts_at input (0 + length [SLASH; STAR] + length body)
                 [STAR; SLASH]) with true.
      * replace (0 + length [SLASH; STAR] + length body
                 + length [STAR; SLASH] =? 0) with false by reflexivity.
        rewrite (@prologue_tail_at_plain input
                   ([SLASH; STAR] ++ body ++ [STAR; SLASH]) rest
                   (0 + length [SLASH; STAR] + length body
                    + length [STAR; SLASH])).
        -- reflexivity.
        -- rewrite Hlen. simpl. lia.
        -- reflexivity.
        -- exact Hp.
      * symmetry. apply starts_at_spec. exists rest.
        replace (0 + length [SLASH; STAR] + length body)
          with (length (SLASH :: STAR :: body)) by (simpl; lia).
        rewrite Hin.
        change (SLASH :: STAR :: body ++ STAR :: SLASH :: rest)
          with ((SLASH :: STAR :: body) ++ [STAR; SLASH] ++ rest).
        apply skipn_length_app.
    + intros j Hj. rewrite m_lit, Hin.
      replace (0 + length [SLASH; STAR] + j) with (2 + j) by (simpl; lia).
      rewrite (no_later_comment_end body Hno (proj1 Hj)). reflexivity.
  - rewrite Hin, Er. simpl. rewrite !length_app. simpl.
    rewrite !length_app. lia.
  - reflexivity.
  - rewrite Hin, Er. simpl. rewrite <- !app_assoc. reflexivity.
  - apply Forall_app; split; [exact Hbody|].
    apply Forall_app; split; [|exact Hr1].
    repeat constructor.
Qed.

(** ** Where [renderChunk] puts the snippet *)

Section SnippetPlacement.

Variable stringToUUID : jsstring -> jsstring.

(** X1: [renderChunk] never throws, whatever the code and the file name:
    it returns null or an edited chunk.  The overwrite
    that [replace] makes is only reached with a match that is not empty,
    the one case the editor refuses being routed to [prepend]. *)
Theorem renderChunk_never_throws (code fileName : jsstring) :
  (exists result, renderChunk stringToUUID code fileName = Returns result)
  /\ (match_ code commentUseStrictRegex = Some (MatchResult 0 []) ->
      forall replacer,
        exists e,
          MagicString.replace (MagicString.new code (Some fileName))
            commentUseStrictRegex replacer
          = Throws e).
Proof.
  split.
  - destruct (some_endsWith renderChunkEndings fileName) eqn:E.
    + destruct (@renderChunk_script stringToUUID code fileName E)
        as [n [mp [_ [_ H]]]].
      eexists. exact H.
    + exists None. unfold renderChunk. rewrite E. reflexivity.
  - intros Hm replacer. unfold MagicString.replace.
    cbn [MagicString.original MagicString.new]. rewrite Hm.
    unfold MagicString.overwrite. cbn. eexists. reflexivity.
Qed.

(** X2: when the code is white space followed by text that starts with no
    white space, no slash and no quote (or by nothing), the snippet goes
    right after the white space; with no white space at all it is
    prepended. *)
Theorem renderChunk_after_white_space (fileName ws post : jsstring) :
  is_script fileName ->
  Forall (fun ch => is_space ch = true) ws ->
  plain_start post ->
  match_ (ws ++ post) commentUseStrictRegex = Some (MatchResult 0 ws)
  /\ exists mp,
       renderChunk stringToUUID (ws ++ post) fileName
       = Returns (Some {|
           code := ws ++ getDebugIdSnippet (stringToUUID (ws ++ post)) ++ post;
           map := mp |}).
Proof.
  intros Hf Hws Hp.
  pose proof (spaces_then_plain_matched Hws Hp) as Hm.
  split; [exact Hm|].
  exact (@renderChunk_at_match stringToUUID (ws ++ post) fileName ws post
           Hf Hm eq_refl).
Qed.

(** X3: when the code is a line comment closed by a line feed or a
    carriage return and followed by text that starts with no white space,
    no slash and no quote, the snippet goes right after the line end of
    the comment. *)
Theorem renderChunk_after_line_comment (fileName text post : jsstring)
    (nl : char) :
  is_script fileName ->
  Forall (fun ch => is_line_terminator ch = false) text ->
  nl = LF \/ nl = CR ->
  plain_start post ->
  let comment := [SLASH; SLASH] ++ text ++ [nl] in
  exists mp,
    renderChunk stringToUUID (comment ++ post) fileName
    = Returns (Some {|
        code := comment ++ getDebugIdSnippet (stringToUUID (comment ++ post))
                ++ post;
        map := mp |}).
Proof.
  intros Hf Htext Hnl Hp comment.
  exact (@renderChunk_at_match stringToUUID (comment ++ post) fileName comment
           post Hf (line_comment_matched Htext Hnl Hp) eq_refl).
Qed.

(** X4: the block comment alternative is greedy.  When the code starts
    with the opening of a block comment and the last comment end of the
    whole code is followed by text that starts with no white space, no
    slash and no quote, the snippet goes right after that last comment
    end, also when earlier comment ends and code stand in between. *)
Theorem renderChunk_after_last_comment_end (fileName body rest : jsstring) :
  is_script fileName ->
  Forall (fun ch => blockable ch = true) body ->
  ~ includes rest [STAR; SLASH] ->
  plain_start rest ->
  let leading := [SLASH; STAR] ++ body ++ [STAR; SLASH] in
  exists mp,
    renderChunk stringToUUID (leading ++ rest) fileName
    = Returns (Some {|
        code := leading ++ getDebugIdSnippet (stringToUUID (leading ++ rest))
                ++ rest;
        map := mp |}).
Proof.
  intros Hf Hbody Hno Hp leading.
  exact (@renderChunk_at_match stringToUUID (leading ++ rest) fileName leading
           rest Hf (block_comment_matched Hbody Hno Hp) eq_refl).
Qed.

End SnippetPlacement.

Lemma renderChunk_never_throws_witness :
  match_ (str "foo();") commentUseStrictRegex = Some (MatchResult 0 [])
  /\ exists e,
       MagicString.replace (MagicString.new (str "foo();") (Some (str "a.js")))
         commentUseStrictRegex (fun mtch => mtch)
       = Throws e.
Proof.
  assert (Hm : match_ (str "foo();") commentUseStrictRegex
               = Some (MatchResult 0 [])) by (vm_compute; reflexivity).
  split; [exact Hm|].
  exact (proj2 (renderChunk_never_throws zeroUUID (str "foo();") (str "a.js"))
           Hm (fun mtch => mtch)).
Defined.

Lemma renderChunk_after_white_space_witness :
  is_script (str "a.js")
  /\ Forall (fun ch => is_space ch = true) [SP; LF]
  /\ plain_start (str "foo();")
  /\ exists mp,
       renderChunk zeroUUID ([SP; LF] ++ str "foo();") (str "a.js")
       = Returns (Some {|
           code := [SP; LF]
                   ++ getDebugIdSnippet (zeroUUID ([SP; LF] ++ str "foo();"))
                   ++ str "foo();";
           map := mp |}).
Proof.
  assert (Hf : is_script (str "a.js")) by (left; exists (str "a"); reflexivity).
  assert (Hws : Forall (fun ch => is_space ch = true) [SP; LF])
    by (repeat constructor).
  assert (Hp : plain_start (str "foo();")) by (repeat split).
  split; [exact Hf|]. split; [exact Hws|]. split; [exact Hp|].
  exact (proj2 (renderChunk_after_white_space zeroUUID Hf Hws Hp)).
Defined.

Lemma renderChunk_after_line_comment_witness :
  exists mp,
    renderChunk zeroUUID (([SLASH; SLASH] ++ str " banner" ++ [LF])
                          ++ str "foo();") (str "a.js")
    = Returns (Some {|
        code := ([SLASH; SLASH] ++ str " banner" ++ [LF])
                ++ getDebugIdSnippet
                     (zeroUUID (([SLASH; SLASH] ++ str " banner" ++ [LF])
                                ++ str "foo();"))
                ++ str "foo();";
        map := mp |}).
Proof.
  assert (Hf : is_script (str "a.js")) by (left; exists (str "a"); reflexivity).
  assert (Ht : Forall (fun ch => is_line_terminator ch = false)
                 (str " banner")) by (repeat constructor).
  assert (Hp : plain_start (str "foo();")) by (repeat split).
  exact (renderChunk_after_line_comment zeroUUID Hf Ht (or_introl eq_refl) Hp).
Defined.

Lemma renderChunk_after_last_comment_end_witness :
  ~ includes (str "y();") [STAR; SLASH]
  /\ exists mp,
       renderChunk zeroUUID
         (([SLASH; STAR] ++ str " a */x();/* b " ++ [STAR; SLASH])
          ++ str "y();") (str "a.js")
       = Returns (Some {|
           code := ([SLASH; STAR] ++ str " a */x();/* b " ++ [STAR; SLASH])
                   ++ getDebugIdSnippet
                        (zeroUUID
                           (([SLASH; STAR] ++ str " a */x();/* b "
                             ++ [STAR; SLASH]) ++ str "y();"))
                   ++ str "y();";
           map := mp |}).
Proof.
  assert (Hf : is_script (str "a.js")) by (left; exists (str "a"); reflexivity).
  assert (Hb : Forall (fun ch => blockable ch = true) (str " a */x();/* b "))
    by (repeat constructor).
  assert (Hno : ~ includes (str "y();") [STAR; SLASH]).
  { intros H. apply includes_spec in H as [x [Hx H]].
    do 5 (destruct x as [|x]; [vm_compute in H; discriminate|]).
    simpl in Hx. lia. }
  assert (Hp : plain_start (str "y();")) by (repeat split).
  split; [exact Hno|].
  exact (renderChunk_after_last_comment_end zeroUUID Hf Hb Hno Hp).
Defined.

(** ** The snippet and its identifier *)

Lemma getDebugIdSnippet_parts (debugId : jsstring) :
  getDebugIdSnippet debugId
  = snippetHead ++ debugId ++ snippetMiddle ++ debugId ++ snippetTail.
Proof.
  unfold getDebugIdSnippet, snippetHead, snippetMiddle, snippetTail.
  rewrite <- !app_assoc. reflexivity.
Qed.

Lemma app_same_length_inv (a b x y : jsstring) :
  length a = length b -> a ++ x = b ++ y -> a = b.
Proof.
  revert b; induction a as [|c a IH]; intros [|d b] Hl H;
    try discriminate; [reflexivity|].
  simpl in Hl, H. injection H as -> H.
  f_equal. apply IH; [lia | exact H].
Qed.

(** X5: the snippet tells its identifier: it is 269 characters longer than
    twice the identifier, and two identifiers that give the same snippet
    are the same. *)
Theorem getDebugIdSnippet_injective (a b : jsstring) :
  length (getDebugIdSnippet a) = 269 + 2 * length a
  /\ (getDebugIdSnippet a = getDebugIdSnippet b -> a = b).
Proof.
  assert (Hlen : forall d, length (getDebugIdSnippet d) = 269 + 2 * length d).
  { intros d. rewrite getDebugIdSnippet_parts, !length_app.
    change (length snippetHead) with 210.
    change (length snippetMiddle) with 42.
    change (length snippetTail) with 17. lia. }
  split; [apply Hlen|].
  intros H.
  assert (Hl : length a = length b).
  { pose proof (f_equal (@length char) H) as L. rewrite !Hlen in L. lia. }
  rewrite !getDebugIdSnippet_parts in H.
  apply app_inv_head in H.
  exact (@app_same_length_inv a b _ _ Hl H).
Qed.

Lemma getDebugIdSnippet_injective_witness :
  getDebugIdSnippet (str "a") = getDebugIdSnippet (str "a")
  /\ str "a" = str "a".
Proof.
  split; [reflexivity|].
  exact (proj2 (getDebugIdSnippet_injective (str "a") (str "a")) eq_refl).
Defined.

(** ** Endings that [transform] leaves alone *)

(** Of two endings of one text, the shorter one ends the longer one. *)
Lemma ends_with_shorter (s e1 e2 : jsstring) :
  ends_with s e1 -> ends_with s e2 -> length e1 <= length e2 ->
  ends_with e2 e1.
Proof.
  intros [p1 H1] [p2 H2] Hle.
  assert (Hl : length p1 = length p2 + (length e2 - length e1)).
  { pose proof (f_equal (@length char) H1) as L1.
    pose proof (f_equal (@length char) H2) as L2.
    rewrite length_app in L1, L2. lia. }
  remember (length e2 - length e1) as d eqn:Hd.
  exists (firstn d e2).
  assert (E : e1 = skipn d e2).
  { rewrite <- (skipn_length_app p1 e1), <- H1, H2, Hl, Nat.add_comm.
    rewrite <- skipn_skipn, skipn_length_app. reflexivity. }
  rewrite E. symmetry; apply firstn_skipn.
Qed.

(** X6: [transform] leaves every module whose id ends in .cjs alone, although
    [renderChunk] works on chunks with that ending: the two lists of
    endings differ. *)
Theorem transform_declines_cjs (code id : jsstring) :
  ends_with id (str ".cjs") ->
  transform code id = None
  /\ forall generator chunkCode,
       renderChunk generator chunkCode id <> Returns None.
Proof.
  intros Hc. split.
  - unfold transform.
    destruct (JSString.eqb id virtualReleaseInjectionFileId); [reflexivity|].
    destruct (match_ id nodeModulesRegex); [reflexivity|].
    destruct (some_endsWith transformEndings id) eqn:E; [|reflexivity].
    exfalso. apply some_endsWith_spec in E as [e [Hin He]].
    assert (Hs : endsWith (str ".cjs") e = true).
    { apply endsWith_spec. apply (ends_with_shorter He Hc).
      unfold transformEndings in Hin. simpl in Hin.
      destruct Hin as [<-|[<-|[<-|[<-|[<-|[]]]]]]; simpl; lia. }
    unfold transformEndings in Hin. simpl in Hin.
    destruct Hin as [<-|[<-|[<-|[<-|[<-|[]]]]]]; vm_compute in Hs;
      discriminate.
  - intros generator chunkCode H.
    assert (Hf : some_endsWith renderChunkEndings id = true)
      by (apply is_script_spec; right; right; exact Hc).
    destruct (@renderChunk_script generator chunkCode id Hf)
      as [n [mp [_ [_ Hr]]]].
    rewrite Hr in H. discriminate.
Qed.

Lemma transform_declines_cjs_witness :
  ends_with (str "/app/src/main.cjs") (str ".cjs")
  /\ transform (str "x();") (str "/app/src/main.cjs") = None.
Proof.
  assert (H : ends_with (str "/app/src/main.cjs") (str ".cjs"))
    by (exists (str "/app/src/main"); reflexivity).
  split; [exact H|].
  exact (proj1 (transform_declines_cjs (str "x();") H)).
Defined.

(** ** The plugin factory *)

Section FactoryFacts.

Context {C D : Type}.
Variable env : Environment C D.
Variable options : FactoryOptions C D.

Ltac factory_run :=
  unfold sentryUnpluginFactory, handleRecoverableError, callHandler,
    setStatus;
  fold (factoryReleaseName env options);
  cbn [negb pluginState warnings transactionStatus handlerCalls].

(** What the factory returns, when it returns, is the plugin list for the
    release name. *)
Lemma factory_Returns (st st' : FactoryState) (ps : list (Plugin C D)) :
  sentryUnpluginFactory env options st = (st', Returns ps) ->
  ps = factoryPlugins env options (factoryReleaseName env options).
Proof.
  factory_run.
  destruct (validateOptions env options); cbn [negb];
    destruct (errorHandler (base options)) as [h|];
    try destruct (h optionsError) as [[]|e1];
    destruct (truthy (factoryReleaseName env options)); cbn [negb];
    try destruct (h releaseNameError) as [[]|e2];
    intros H; try discriminate; injection H as _ <-; reflexivity.
Qed.

(** X7: without an error handler the factory returns its plugins only
    when the options are valid and a release name was found.  Options that
    are not valid make it throw the options error, and valid options
    without a release name make it throw the release name error; in both
    cases no warning is given and no plugin is built. *)
Theorem factory_without_handler (st : FactoryState) :
  errorHandler (base options) = None ->
  (validateOptions env options = false ->
   sentryUnpluginFactory env options st
   = ({| pluginState := {| transactionStatus := Some (str "internal_error");
                           handlerCalls := handlerCalls (pluginState st) |};
         warnings := warnings st |},
      Throws (VError optionsError)))
  /\ (validateOptions env options = true ->
      truthy (factoryReleaseName env options) = false ->
      sentryUnpluginFactory env options st
      = ({| pluginState := {| transactionStatus := Some (str "internal_error");
                              handlerCalls := handlerCalls (pluginState st) |};
            warnings := warnings st |},
         Throws (VError releaseNameError)))
  /\ (validateOptions env options = true ->
      truthy (factoryReleaseName env options) = true ->
      snd (sentryUnpluginFactory env options st)
      = Returns (factoryPlugins env options (factoryReleaseName env options))
      /\ pluginState (fst (sentryUnpluginFactory env options st))
         = pluginState st).
Proof.
  intros Hh. split; [|split].
  - intros Hv. factory_run. rewrite Hv, Hh. reflexivity.
  - intros Hv Hn. factory_run. rewrite Hv, Hh, Hn. reflexivity.
  - intros Hv Hn. factory_run. rewrite Hv, Hn. cbn [negb fst snd].
    split; reflexivity.
Qed.

(** X8: with an error handler that returns, the factory always returns its
    plugin list.  The handler is called with the options error when the
    options are not valid and then with the release name error when no
    release name was found, in this order and with nothing else.  When the
    handler throws on the options error, the factory throws the same value
    and the release name is not looked at. *)
Theorem factory_with_handler (h : ErrorHandler) (st : FactoryState) :
  errorHandler (base options) = Some h ->
  (h optionsError = Returns tt -> h releaseNameError = Returns tt ->
   snd (sentryUnpluginFactory env options st)
   = Returns (factoryPlugins env options (factoryReleaseName env options))
   /\ handlerCalls (pluginState (fst (sentryUnpluginFactory env options st)))
      = handlerCalls (pluginState st)
        ++ (if validateOptions env options then [] else [optionsError])
        ++ (if truthy (factoryReleaseName env options) then []
            else [releaseNameError]))
  /\ (forall e, h optionsError = Throws e ->
      validateOptions env options = false ->
      snd (sentryUnpluginFactory env options st) = Throws e
      /\ handlerCalls (pluginState (fst (sentryUnpluginFactory env options st)))
         = handlerCalls (pluginState st) ++ [optionsError]).
Proof.
  intros Hh. split.
  - intros H1 H2. factory_run. rewrite Hh.
    destruct (validateOptions env options); cbn [negb];
      try rewrite H1; destruct (truthy (factoryReleaseName env options));
      cbn [negb];
      try rewrite H2; cbn [fst snd pluginState handlerCalls];
      rewrite ?app_nil_r, <- ?app_assoc; split; reflexivity.
  - intros e He Hv. factory_run. rewrite Hh, Hv. cbn [negb].
    rewrite He. split; reflexivity.
Qed.

End FactoryFacts.

Section FactoryPlugins.

Context {C D : Type}.
Variable env : Environment C D.
Variable options : FactoryOptions C D.

(** X9: whenever the factory returns, the telemetry plugin comes first and
    the plugins stand in the order release injection, debug id injection,
    release management, debug id upload, each kind at most once. *)
Theorem factory_plugin_order (st st' : FactoryState)
    (ps : list (Plugin C D)) :
  sentryUnpluginFactory env options st = (st', Returns ps) ->
  (exists rest, ps = TelemetryPlugin :: rest)
  /\ StronglySorted lt (List.map pluginRank ps).
Proof.
  intros H. apply factory_Returns in H. subst ps.
  split; [eexists; reflexivity|].
  unfold factoryPlugins, releaseManagementPluginArgs, sourcemapsAssets.
  destruct (factoryReleaseName env options) as [[|c n]|];
    destruct (injectRelease options);
    destruct (sourcemaps options) as [[[[[|a s]|l]|]]|];
    destruct (watchMode env);
    cbn; repeat constructor.
Qed.

(** X10: whenever the factory returns, the release management plugin is
    in the list exactly when a release name was found, and it carries that
    name and the five settings of the options; the release injection
    plugin is in the list exactly when a name was found and
    [injectRelease] is on.  A list without release management means that
    the error handler was told that no release name could be
    determined. *)
Theorem factory_release_plugins (st st' : FactoryState)
    (ps : list (Plugin C D)) :
  sentryUnpluginFactory env options st = (st', Returns ps) ->
  existsb isReleaseManagement ps = truthy (factoryReleaseName env options)
  /\ existsb isReleaseInjection ps
     = injectRelease options && truthy (factoryReleaseName env options)
  /\ (forall args, In (ReleaseManagementPlugin args) ps ->
        factoryReleaseName env options = Some (releaseName args)
        /\ shouldCleanArtifacts args = cleanArtifacts (base options)
        /\ shouldUploadSourceMaps args = uploadSourceMaps (base options)
        /\ shouldFinalizeRelease args = finalize (base options)
        /\ setCommitsOption args = setCommits (base options)
        /\ deployOptions args = deploy (base options))
  /\ (existsb isReleaseManagement ps = false ->
      errorHandler (base options) <> None
      /\ In releaseNameError (handlerCalls (pluginState st'))).
Proof.
  intros H. pose proof (factory_Returns _ _ _ H) as Hps.
  assert (Hm : existsb isReleaseManagement ps
               = truthy (factoryReleaseName env options)).
  { subst ps.
    unfold factoryPlugins, releaseManagementPluginArgs, sourcemapsAssets.
    destruct (factoryReleaseName env options) as [[|c n]|];
      destruct (injectRelease options);
      destruct (sourcemaps options) as [[[[[|a s]|l]|]]|];
      destruct (watchMode env); reflexivity. }
  split; [exact Hm|]. split; [|split].
  - subst ps.
    unfold factoryPlugins, releaseManagementPluginArgs, sourcemapsAssets.
    destruct (factoryReleaseName env options) as [[|c n]|];
      destruct (injectRelease options);
      destruct (sourcemaps options) as [[[[[|a s]|l]|]]|];
      destruct (watchMode env); reflexivity.
  - intros args Hin. subst ps.
    unfold factoryPlugins, releaseManagementPluginArgs, sourcemapsAssets
      in Hin.
    destruct (factoryReleaseName env options) as [[|c n]|];
      destruct (injectRelease options);
      destruct (sourcemaps options) as [[[[[|a s]|l]|]]|];
      destruct (watchMode env); cbn in Hin;
      repeat (destruct Hin as [Hin|Hin]; try discriminate);
      try contradiction;
      injection Hin as <-; repeat split; reflexivity.
  - rewrite Hm. intros Hn. revert H.
    unfold sentryUnpluginFactory, handleRecoverableError, callHandler,
      setStatus.
    fold (factoryReleaseName env options). rewrite Hn.
    cbn [negb pluginState warnings transactionStatus handlerCalls].
    destruct (validateOptions env options); cbn [negb];
      destruct (errorHandler (base options)) as [h|];
      try destruct (h optionsError) as [[]|e1];
      try destruct (h releaseNameError) as [[]|e2];
      intros H; try discriminate; injection H as <- _;
      (split; [discriminate|]);
      cbn [pluginState handlerCalls]; apply in_or_app; right; left;
      reflexivity.
Qed.

(** X11: whenever the factory returns, the debug id injection plugin is in
    the list exactly when [sourcemaps.assets] is truthy, and the debug id
    upload plugin exactly when [sourcemaps.assets] is defined and the
    bundler does not watch.  So outside watch mode injection never comes
    without upload, and in watch mode nothing is uploaded. *)
Theorem factory_debug_id_plugins (st st' : FactoryState)
    (ps : list (Plugin C D)) :
  sentryUnpluginFactory env options st = (st', Returns ps) ->
  let a := sourcemapsAssets (sourcemaps options) in
  existsb isDebugIdInjection ps = truthyAssets a
  /\ existsb isDebugIdUpload ps
     = negb (watchMode env) && ReleasePipeline.is_some a
  /\ (existsb isDebugIdInjection ps = true -> watchMode env = false ->
      existsb isDebugIdUpload ps = true)
  /\ (watchMode env = true -> existsb isDebugIdUpload ps = false)
  /\ (forall uploadAssets n, In (DebugIdUploadPlugin uploadAssets n) ps ->
        a = Some uploadAssets /\ n = factoryReleaseName env options).
Proof.
  intros H a. apply factory_Returns in H. subst ps a.
  unfold factoryPlugins, releaseManagementPluginArgs, sourcemapsAssets.
  destruct (factoryReleaseName env options) as [[|c n]|];
    destruct (injectRelease options);
    destruct (sourcemaps options) as [[[[[|a s]|l]|]]|];
    destruct (watchMode env); cbn;
    (split; [reflexivity|]); (split; [reflexivity|]);
    (split; [intros; congruence|]); (split; [intros; congruence|]);
    intros uploadAssets n' Hin;
    repeat (destruct Hin as [Hin|Hin]; try discriminate);
    try contradiction;
    injection Hin as <- <-; split; reflexivity.
Qed.

(** X12: whenever the factory returns, it has warned exactly once that it
    runs from within [node_modules] when the working directory contains
    that name between two slashes or between two backslashes, and has
    given no warning otherwise. *)
Theorem factory_node_modules_warning (st st' : FactoryState)
    (ps : list (Plugin C D)) :
  sentryUnpluginFactory env options st = (st', Returns ps) ->
  (in_node_modules (cwd env) ->
   warnings st' = warnings st ++ [nodeModulesWarning])
  /\ (~ in_node_modules (cwd env) -> warnings st' = warnings st).
Proof.
  unfold sentryUnpluginFactory, handleRecoverableError, callHandler,
    setStatus.
  cbn [negb pluginState warnings transactionStatus handlerCalls].
  intros H.
  assert (Hw : warnings st'
               = match match_ (cwd env) nodeModulesRegex with
                 | Some _ => warnings st ++ [nodeModulesWarning]
                 | None => warnings st
                 end).
  { revert H.
    destruct (validateOptions env options); cbn [negb];
      destruct (errorHandler (base options)) as [h|];
      try destruct (h optionsError) as [[]|e1];
      destruct (truthy
                  (resolveReleaseName (base options)
                     (determineReleaseName env))); cbn [negb];
      try destruct (h releaseNameError) as [[]|e2];
      intros H; try discriminate; injection H as <- _; reflexivity. }
  rewrite Hw. split.
  - intros Hin.
    destruct (match_ (cwd env) nodeModulesRegex) eqn:E; [reflexivity|].
    exfalso. exact (@nodeModulesRegex_None (cwd env) E Hin).
  - intros Hout. apply nodeModulesRegex_spec in Hout. rewrite Hout.
    reflexivity.
Qed.

End FactoryPlugins.

(** ** The factory at sample inputs *)

Lemma sample_factory_run :
  sentryUnpluginFactory sampleEnvironment sampleFactoryOptions
    initialFactoryState
  = (initialFactoryState,
     Returns
       [ TelemetryPlugin;
         ReleaseInjectionPlugin (str "release=v1");
         DebugIdInjectionPlugin;
         ReleaseManagementPlugin
           {| releaseName := str "v1";
              shouldCleanArtifacts := false;
              shouldUploadSourceMaps := true;
              shouldFinalizeRelease := true;
              setCommitsOption := None;
              deployOptions := None |};
         DebugIdUploadPlugin (AssetsString (str "dist/**"))
           (Some (str "v1")) ]).
Proof. reflexivity. Qed.

Lemma factory_without_handler_witness :
  snd (sentryUnpluginFactory sampleEnvironment sampleFactoryOptions
         initialFactoryState)
  = Returns (factoryPlugins sampleEnvironment sampleFactoryOptions
               (factoryReleaseName sampleEnvironment sampleFactoryOptions)).
Proof.
  exact (proj1 (proj2 (proj2 (factory_without_handler sampleEnvironment
                                sampleFactoryOptions initialFactoryState
                                eq_refl)) eq_refl eq_refl)).
Defined.

Lemma factory_with_handler_witness :
  snd (sentryUnpluginFactory sampleEnvironment
         (namelessFactoryOptions quietHandler) initialFactoryState)
  = Returns [TelemetryPlugin]
  /\ handlerCalls
       (pluginState
          (fst (sentryUnpluginFactory sampleEnvironment
                  (namelessFactoryOptions quietHandler) initialFactoryState)))
     = [releaseNameError].
Proof.
  exact (proj1 (factory_with_handler sampleEnvironment
                  (namelessFactoryOptions quietHandler) initialFactoryState
                  (h := quietHandler) eq_refl) eq_refl eq_refl).
Defined.

Lemma factory_plugin_order_witness :
  StronglySorted lt [0; 1; 2; 3; 4].
Proof.
  exact (proj2 (factory_plugin_order sampleEnvironment sampleFactoryOptions
                  initialFactoryState sample_factory_run)).
Defined.

Lemma factory_release_plugins_witness :
  existsb isReleaseManagement
    (factoryPlugins sampleEnvironment sampleFactoryOptions (Some (str "v1")))
  = true.
Proof.
  exact (proj1 (factory_release_plugins sampleEnvironment sampleFactoryOptions
                  initialFactoryState sample_factory_run)).
Defined.

Lemma factory_debug_id_plugins_witness :
  existsb isDebugIdUpload
    (factoryPlugins sampleEnvironment sampleFactoryOptions (Some (str "v1")))
  = true.
Proof.
  exact (proj1 (proj2 (proj2 (factory_debug_id_plugins sampleEnvironment
                                sampleFactoryOptions initialFactoryState
                                sample_factory_run))) eq_refl eq_refl).
Defined.

Lemma factory_node_modules_warning_witness :
  ~ in_node_modules (str "/home/app")
  /\ in_node_modules (str "/home/app/node_modules/pkg")
  /\ warnings
       (fst (sentryUnpluginFactory dependencyEnvironment sampleFactoryOptions
               initialFactoryState))
     = [nodeModulesWarning].
Proof.
  assert (Hout : ~ in_node_modules (str "/home/app")).
  { apply nodeModulesRegex_spec. vm_compute. reflexivity. }
  assert (Hin : in_node_modules (str "/home/app/node_modules/pkg")).
  { right. exists (str "/home/app"), (str "pkg"). reflexivity. }
  assert (Hrun : sentryUnpluginFactory dependencyEnvironment
                   sampleFactoryOptions initialFactoryState
                 = (fst (sentryUnpluginFactory dependencyEnvironment
                           sampleFactoryOptions initialFactoryState),
                    Returns (factoryPlugins dependencyEnvironment
                               sampleFactoryOptions (Some (str "v1")))))
    by reflexivity.
  split; [exact Hout|]. split; [exact Hin|].
  exact (proj1 (factory_node_modules_warning dependencyEnvironment
                  sampleFactoryOptions initialFactoryState Hrun) Hin).
Defined.

(** ** A directive without its semicolon *)

Section ClassGreedy.

Variable input : jsstring.

(** A greedy repetition of a class takes the whole run of the class and
    then gives the characters back one by one. *)
Lemma repeat_class_greedy (cs : charclass) (post : jsstring)
    (k : continuation) :
  stops cs post ->
  forall run pre fuel x,
    length run < fuel -> x = length pre -> input = pre ++ run ++ post ->
    Forall (fun ch => in_class cs ch = true) run ->
    repeat_matcher (m input (Class cs)) fuel x k = greedy k x (length run).
Proof.
  intros Hs run; induction run as [|a run IH];
    intros pre fuel x Hf Hx Hi Hrun;
    (destruct fuel as [|fuel]; [simpl in Hf; lia|]);
    cbn [repeat_matcher length greedy].
  - rewrite (@m_class_stops input cs pre post x _ Hx Hi Hs). reflexivity.
  - apply Forall_cons_iff in Hrun as [Ha Hrun'].
    rewrite (@m_class_at input cs pre (run ++ post) a x _ Hx Hi), Ha.
    replace (S x =? x) with false by (symmetry; apply Nat.eqb_neq; lia).
    rewrite (IH (pre ++ [a]) fuel (S x)); try assumption.
    + reflexivity.
    + simpl in Hf; lia.
    + rewrite length_app; simpl; lia.
    + rewrite Hi, <- app_assoc. reflexivity.
Qed.

(** Inside a quoted text that no semicolon follows, the closing quote
    and the semicolon are found at no index. *)
Lemma no_quote_and_semicolon (q : char) (post : jsstring) (k : continuation) :
  stops (Lit SEMI) post ->
  forall run pre x,
    x = length pre -> input = pre ++ run ++ q :: post ->
    Forall (fun ch => ch <> q) run ->
    greedy (fun y => m input (Seq (Class (Lit q)) (Class (Lit SEMI))) y k)
      x (length run)
    = None.
Proof.
  intros Hs run; induction run as [|a run IH]; intros pre x Hx Hi Hrun;
    cbn [length greedy].
  - rewrite m_Seq, (@m_class_at input (Lit q) pre post q x _ Hx Hi).
    cbn [in_class]. rewrite N.eqb_refl.
    apply (@m_class_stops input (Lit SEMI) (pre ++ [q]) post).
    + rewrite length_app; simpl; lia.
    + rewrite Hi, <- app_assoc. reflexivity.
    + exact Hs.
  - apply Forall_cons_iff in Hrun as [Ha Hrun'].
    rewrite (IH (pre ++ [a]) (S x)); try assumption.
    + cbn [orelse].
      rewrite m_Seq,
        (@m_class_at input (Lit q) pre (run ++ q :: post) a x _ Hx Hi).
      cbn [in_class]. apply N.eqb_neq in Ha. rewrite Ha. reflexivity.
    + rewrite length_app; simpl; lia.
    + rewrite Hi, <- app_assoc. reflexivity.
Qed.

Lemma unterminated_directive_fails (q : char) (pre body post : jsstring)
    (x : nat) (k : continuation) :
  x = length pre -> input = pre ++ q :: body ++ q :: post ->
  Forall (fun ch => ch <> q) body ->
  stops (Lit SEMI) post ->
  m input (directive q) x k = None.
Proof.
  intros Hx Hi Hb Hs. unfold directive. cbn [seq].
  rewrite m_Seq, (@m_class_at input (Lit q) pre _ q x _ Hx Hi).
  cbn [in_class]. rewrite N.eqb_refl, m_Seq, m_Star.
  assert (Hst : stops (NoneOf [q]) (q :: post)).
  { cbn [stops in_class existsb]. rewrite N.eqb_refl. reflexivity. }
  rewrite (@repeat_class_greedy (NoneOf [q]) (q :: post) _ Hst body
             (pre ++ [q])).
  - apply (@no_quote_and_semicolon q post k Hs body (pre ++ [q])).
    + rewrite length_app; simpl; lia.
    + rewrite Hi, <- app_assoc. reflexivity.
    + exact Hb.
  - rewrite Hi, !length_app. simpl. rewrite length_app. simpl. lia.
  - rewrite length_app; simpl; lia.
  - rewrite Hi, <- app_assoc. reflexivity.
  - apply (Forall_impl _ (P := fun ch => ch <> q)); [|exact Hb].
    intros ch Hch. cbn [in_class existsb].
    apply N.eqb_neq in Hch. rewrite Hch. reflexivity.
Qed.

End ClassGreedy.

(** A quoted text that no semicolon follows is no directive for the
    pattern: it matches the empty text. *)
Lemma unterminated_directive_matched (q : char) (body post : jsstring) :
  q = DQ \/ q = SQ ->
  Forall (fun ch => ch <> q) body ->
  stops (Lit SEMI) post ->
  match_ (q :: body ++ q :: post) commentUseStrictRegex
  = Some (MatchResult 0 []).
Proof.
  intros Hq Hb Hs.
  apply (@match_prefix commentUseStrictRegex [] (q :: body ++ q :: post)).
  set (input := [] ++ q :: body ++ q :: post).
  rewrite commentUseStrictRegex_unfold.
  rewrite (@prologue_repeat_at_quote q Hq input [] (body ++ q :: post) 0 _ _
             eq_refl eq_refl).
  rewrite m_Opt, m_Alt.
  assert (Hown : forall k, m input (directive q) 0 k = None).
  { intros k.
    apply (@unterminated_directive_fails input q [] body post 0 k
             eq_refl eq_refl Hb Hs). }
  assert (Hother : forall q' k, q <> q' -> m input (directive q') 0 k = None).
  { intros q' k Hne.
    apply (@directive_fails q q' input [] (body ++ q :: post) 0 k Hne
             eq_refl eq_refl). }
  destruct Hq as [E|E]; rewrite E in Hown, Hother.
  - rewrite Hown, (Hother SQ) by discriminate. reflexivity.
  - rewrite Hown, (Hother DQ) by discriminate. reflexivity.
Qed.

Section UnterminatedDirective.

Variable stringToUUID : jsstring -> jsstring.

(** X14: the pattern knows a directive only with its semicolon.  When the
    code starts with a quoted text, in double or single quotes, that no
    semicolon follows, the pattern matches the empty text and the snippet
    is prepended, in front of the quoted text. *)
Theorem renderChunk_before_unterminated_directive
    (fileName body post : jsstring) (q : char) :
  is_script fileName ->
  q = DQ \/ q = SQ ->
  Forall (fun ch => ch <> q) body ->
  stops (Lit SEMI) post ->
  let code := q :: body ++ q :: post in
  match_ code commentUseStrictRegex = Some (MatchResult 0 [])
  /\ exists mp,
       renderChunk stringToUUID code fileName
       = Returns (Some {|
           code := getDebugIdSnippet (stringToUUID code) ++ code;
           map := mp |}).
Proof.
  intros Hf Hq Hb Hs code.
  pose proof (@unterminated_directive_matched q body post Hq Hb Hs) as Hm.
  split; [exact Hm|].
  exact (@renderChunk_at_match stringToUUID code fileName [] code Hf Hm
           eq_refl).
Qed.

End UnterminatedDirective.

Lemma renderChunk_before_unterminated_directive_witness :
  exists mp,
    renderChunk zeroUUID (DQ :: str "use strict" ++ DQ :: LF :: str "foo();")
      (str "a.js")
    = Returns (Some {|
        code := getDebugIdSnippet
                  (zeroUUID (DQ :: str "use strict" ++ DQ :: LF
                             :: str "foo();"))
                ++ DQ :: str "use strict" ++ DQ :: LF :: str "foo();";
        map := mp |}).
Proof.
  assert (Hf : is_script (str "a.js")) by (left; exists (str "a"); reflexivity).
  assert (Hb : Forall (fun ch => ch <> DQ) (str "use strict"))
    by (repeat constructor; discriminate).
  assert (Hs : stops (Lit SEMI) (LF :: str "foo();")) by reflexivity.
  exact (proj2 (@renderChunk_before_unterminated_directive zeroUUID
                  (str "a.js") (str "use strict") (LF :: str "foo();") DQ Hf
                  (or_introl eq_refl) Hb Hs)).
Defined.

(** ** An empty release option *)

Section EmptyRelease.

Context {C D : Type}.
Variable env : Environment C D.
Variable options : FactoryOptions C D.

(** X13: the name that [determineReleaseName] finds is used only when the
    [release] option is absent: a [release] option that is present is the
    release name as it stands, so a non-empty one reaches the release
    management plugin unchanged, whatever [determineReleaseName] would
    find.  A [release] option that is the empty string counts as no
    release name: when the factory returns, neither the release management
    nor the release injection plugin is in the list. *)
Theorem factory_empty_release (st st' : FactoryState)
    (ps : list (Plugin C D)) :
  (release (base options) = None ->
   factoryReleaseName env options = determineReleaseName env)
  /\ (forall r, release (base options) = Some r ->
      factoryReleaseName env options = Some r)
  /\ (forall c n, release (base options) = Some (c :: n) ->
      sentryUnpluginFactory env options st = (st', Returns ps) ->
      existsb isReleaseManagement ps = true
      /\ forall args, In (ReleaseManagementPlugin args) ps ->
           releaseName args = c :: n)
  /\ (release (base options) = Some [] ->
      sentryUnpluginFactory env options st = (st', Returns ps) ->
      existsb isReleaseManagement ps = false
      /\ existsb isReleaseInjection ps = false
      /\ In releaseNameError (handlerCalls (pluginState st'))).
Proof.
  assert (Hsome : forall r, release (base options) = Some r ->
                    factoryReleaseName env options = Some r).
  { intros r Hr. unfold factoryReleaseName, resolveReleaseName.
    rewrite Hr. reflexivity. }
  split; [|split; [exact Hsome|split]].
  - intros Hr. unfold factoryReleaseName, resolveReleaseName.
    rewrite Hr. reflexivity.
  - intros c n Hr H. pose proof (Hsome _ Hr) as Hn.
    pose proof (factory_Returns _ _ _ H) as Hps. subst ps. rewrite Hn.
    unfold factoryPlugins, releaseManagementPluginArgs, sourcemapsAssets.
    destruct (injectRelease options);
      destruct (sourcemaps options) as [[[[[|a s]|l]|]]|];
      destruct (watchMode env); cbn;
      (split; [reflexivity|]); intros args Hin;
      repeat (destruct Hin as [Hin|Hin]; try discriminate);
      try contradiction; injection Hin as <-; reflexivity.
  - intros Hr H. pose proof (Hsome _ Hr) as Hn.
    pose proof (factory_Returns _ _ _ H) as Hps.
    assert (Hm : existsb isReleaseManagement ps = false
                 /\ existsb isReleaseInjection ps = false).
    { subst ps. rewrite Hn.
      unfold factoryPlugins, releaseManagementPluginArgs, sourcemapsAssets.
      destruct (sourcemaps options) as [[[[[|a s]|l]|]]|];
        destruct (watchMode env); split; reflexivity. }
    destruct Hm as [Hm Hi]. split; [exact Hm|]. split; [exact Hi|].
    revert H.
    unfold sentryUnpluginFactory, handleRecoverableError, callHandler,
      setStatus.
    fold (factoryReleaseName env options). rewrite Hn.
    cbn [truthy negb pluginState warnings transactionStatus handlerCalls].
    destruct (validateOptions env options); cbn [negb];
      destruct (errorHandler (base options)) as [h|];
      try destruct (h optionsError) as [[]|e1];
      try destruct (h releaseNameError) as [[]|e2];
      intros H; try discriminate; injection H as <- _;
      cbn [pluginState handlerCalls]; apply in_or_app; right; left;
      reflexivity.
Qed.

End EmptyRelease.

Lemma factory_empty_release_witness :
  determineReleaseName gitEnvironment = Some (str "from-git")
  /\ sentryUnpluginFactory gitEnvironment emptyReleaseOptions
       initialFactoryState
     = ({| pluginState :=
             {| transactionStatus := Some (str "internal_error");
                handlerCalls := [releaseNameError] |};
           warnings := [] |},
        Returns [TelemetryPlugin])
  /\ In releaseNameError [releaseNameError]
  /\ factoryReleaseName gitEnvironment sampleFactoryOptions
     = Some (str "v1").
Proof.
  assert (Hrun : sentryUnpluginFactory gitEnvironment emptyReleaseOptions
                   initialFactoryState
                 = ({| pluginState :=
                         {| transactionStatus := Some (str "internal_error");
                            handlerCalls := [releaseNameError] |};
                       warnings := [] |},
                    Returns [TelemetryPlugin])) by reflexivity.
  split; [reflexivity|]. split; [exact Hrun|]. split.
  - exact (proj2 (proj2 (proj2 (proj2 (proj2
             (@factory_empty_release unit unit gitEnvironment
                emptyReleaseOptions initialFactoryState _ _)))
             eq_refl Hrun))).
  - exact (proj1 (proj2
             (@factory_empty_release unit unit gitEnvironment
                sampleFactoryOptions initialFactoryState
                initialFactoryState []))
             (str "v1") eq_refl).
Defined.

(** ** The file name and the edited code *)

Section FileNameIndependence.

Variable stringToUUID : jsstring -> jsstring.

(** X15: the file name of a script chunk decides nothing about the edited
    code: under every two file names that end in .js, .mjs or .cjs,
    [renderChunk] returns the same edited code for the same code, the
    original with the snippet of [stringToUUID code] put in at one
    place. *)
Theorem renderChunk_code_ignores_file_name
    (code fileName1 fileName2 : jsstring) :
  is_script fileName1 -> is_script fileName2 ->
  exists prefix suffix mp1 mp2,
    prefix ++ suffix = code
    /\ renderChunk stringToUUID code fileName1
       = Returns (Some {|
           code := prefix ++ getDebugIdSnippet (stringToUUID code) ++ suffix;
           map := mp1 |})
    /\ renderChunk stringToUUID code fileName2
       = Returns (Some {|
           code := prefix ++ getDebugIdSnippet (stringToUUID code) ++ suffix;
           map := mp2 |}).
Proof.
  intros Hf1 Hf2.
  destruct (commentUseStrictRegex_matches code) as [n [Hn Hm]].
  assert (Hc : code = firstn n code ++ skipn n code)
    by (symmetry; apply firstn_skipn).
  destruct (@renderChunk_at_match stringToUUID code fileName1 _ _ Hf1 Hm Hc)
    as [mp1 H1].
  destruct (@renderChunk_at_match stringToUUID code fileName2 _ _ Hf2 Hm Hc)
    as [mp2 H2].
  exists (firstn n code), (skipn n code), mp1, mp2.
  split; [symmetry; exact Hc|]. split; [exact H1 | exact H2].
Qed.

End FileNameIndependence.

Lemma renderChunk_code_ignores_file_name_witness :
  exists prefix suffix mp1 mp2,
    prefix ++ suffix = str "foo();"
    /\ renderChunk zeroUUID (str "foo();") (str "a.js")
       = Returns (Some {|
           code := prefix ++ getDebugIdSnippet (zeroUUID (str "foo();"))
                   ++ suffix;
           map := mp1 |})
    /\ renderChunk zeroUUID (str "foo();") (str "dist/b.mjs")
       = Returns (Some {|
           code := prefix ++ getDebugIdSnippet (zeroUUID (str "foo();"))
                   ++ suffix;
           map := mp2 |}).
Proof.
  assert (H1 : is_script (str "a.js")) by (left; exists (str "a"); reflexivity).
  assert (H2 : is_script (str "dist/b.mjs"))
    by (right; left; exists (str "dist/b"); reflexivity).
  exact (@renderChunk_code_ignores_file_name zeroUUID (str "foo();")
           (str "a.js") (str "dist/b.mjs") H1 H2).
Defined.
